(** * Sarah's Tools / Food Waste Preventer: a shallow embedding of [App.tsx]

    The development follows the source file top to bottom: the JavaScript
    string and number primitives the code calls, the two time helpers
    ([formatTime], [parseTime]), the component state of [App] together with
    the collaborators it talks to (notification service, key-value storage,
    timers, vibration, advisory dialogs), the hooks and callbacks of [App],
    and finally the properties of the specification. *)

From Stdlib Require Import List ZArith NArith Lia Bool.
From Stdlib Require String Ascii.
Import String.StringSyntax.
Import ListNotations.

Local Open Scope N_scope.

(** ** JavaScript strings

    A JavaScript string is a finite sequence of UTF-16 code units.  Code
    units are kept as [N]; values above 0xFFFF never arise from the
    literals of the program and are treated like any other
    non-whitespace, non-digit unit. *)
Definition jsstring := list N.

(** String literals of the source, written as Rocq strings. *)
Definition js (s : String.string) : jsstring :=
  map Ascii.N_of_ascii (String.list_ascii_of_string s).

Delimit Scope string_scope with string.
Arguments js s%_string.

Fixpoint jsstring_eqb (a b : jsstring) : bool :=
  match a, b with
  | [], [] => true
  | x :: a', y :: b' => (x =? y) && jsstring_eqb a' b'
  | _, _ => false
  end.

(** [WhiteSpace] and [LineTerminator] of ECMA-262: the code units removed
    by [String.prototype.trim]. *)
Definition isWhiteSpace (c : N) : bool :=
  ((9 <=? c) && (c <=? 13))             (* TAB LF VT FF CR *)
  || (c =? 32) || (c =? 160)            (* SP, NBSP *)
  || (c =? 5760)                        (* U+1680 *)
  || ((8192 <=? c) && (c <=? 8202))     (* U+2000 .. U+200A *)
  || (c =? 8232) || (c =? 8233)         (* LS, PS *)
  || (c =? 8239) || (c =? 8287)         (* U+202F, U+205F *)
  || (c =? 12288) || (c =? 65279).      (* U+3000, U+FEFF *)

Fixpoint trimStart (s : jsstring) : jsstring :=
  match s with
  | c :: r => if isWhiteSpace c then trimStart r else s
  | [] => []
  end.

Definition trimEnd (s : jsstring) : jsstring := List.rev (trimStart (List.rev s)).

(** [s.trim()] *)
Definition trim (s : jsstring) : jsstring := trimEnd (trimStart s).

(** [s.toLowerCase()] is the built-in [String.prototype.toLowerCase].  It
    follows the Unicode case mappings, can change the length of a string
    and looks at the context of a letter (final sigma), so it is not
    written out here: it is the parameter [toLowerCase] of everything
    from [requiredSentence] on, and what is proved there holds whatever
    function stands in its place.  Only a statement that evaluates it on
    an ASCII text asks for one fact about it, [asciiLowerCasing]: on a
    text of ASCII units it works unit by unit and moves A-Z to a-z. *)
Definition lowerAscii (c : N) : N :=
  if (65 <=? c) && (c <=? 90) then c + 32 else c.

Definition isAsciiText (s : jsstring) : bool := forallb (fun c => c <? 128) s.

Definition asciiLowerCasing (f : jsstring -> jsstring) : Prop :=
  forall s, isAsciiText s = true -> f s = map lowerAscii s.

(** One function with that property, used to try the statements on
    concrete states: it lower-cases the Basic Latin and Latin-1 blocks
    (A-Z and U+00C0..U+00DE without the multiplication sign U+00D7 move
    up by 0x20) and leaves every other unit as it is. *)
Definition lowerUnit (c : N) : N :=
  if (65 <=? c) && (c <=? 90) then c + 32
  else if (192 <=? c) && (c <=? 222) && negb (c =? 215) then c + 32
  else c.

Definition latin1LowerCase (s : jsstring) : jsstring := map lowerUnit s.

(** Truthiness of a string value: [!s] holds exactly for the empty string. *)
Definition truthyString (s : jsstring) : bool :=
  match s with [] => false | _ :: _ => true end.

(** ** JavaScript numbers

    Every number the program handles is an integer well inside the exact
    range of a double (hours, minutes, millisecond timestamps), so numbers
    are [Z]. *)
Fixpoint uintUnits (d : Decimal.uint) : jsstring :=
  match d with
  | Decimal.Nil => []
  | Decimal.D0 d => 48 :: uintUnits d
  | Decimal.D1 d => 49 :: uintUnits d
  | Decimal.D2 d => 50 :: uintUnits d
  | Decimal.D3 d => 51 :: uintUnits d
  | Decimal.D4 d => 52 :: uintUnits d
  | Decimal.D5 d => 53 :: uintUnits d
  | Decimal.D6 d => 54 :: uintUnits d
  | Decimal.D7 d => 55 :: uintUnits d
  | Decimal.D8 d => 56 :: uintUnits d
  | Decimal.D9 d => 57 :: uintUnits d
  end.

(** [n.toString()] for an integer [n]: decimal digits, a leading minus
    sign for negative numbers. *)
Definition toString (n : Z) : jsstring :=
  match Z.to_int n with
  | Decimal.Pos d => uintUnits d
  | Decimal.Neg d => 45 :: uintUnits d
  end.

(** [s.padStart(targetLength, fill)] with a one-unit fill string. *)
Definition padStart (targetLength : nat) (fill : N) (s : jsstring) : jsstring :=
  repeat fill (targetLength - length s) ++ s.

Definition isDigit (c : N) : bool := (48 <=? c) && (c <=? 57).

Definition digitVal (c : N) : Z := (Z.of_N c - 48)%Z.

(** [Number(s)] on a non-empty string of ASCII digits, the only strings
    the capture groups of [parseTime] can hold (lemma
    [timeRegex_exec_digits] below). *)
Definition Number (s : jsstring) : Z :=
  fold_left (fun acc c => (10 * acc + digitVal c)%Z) s 0%Z.

(** ** The regular expression of [parseTime]

    [/^([01]?\d|2[0-3]):([0-5]\d)$/] is run by a backtracking matcher.  A
    matcher maps the remaining input to the list of its ways to match a
    prefix, in the order the engine tries them; each way is the matched
    text and the rest of the input. *)
Definition Matcher := jsstring -> list (jsstring * jsstring).

Definition rx_class (p : N -> bool) : Matcher :=
  fun s => match s with
           | c :: r => if p c then [([c], r)] else []
           | [] => []
           end.

Definition rx_char (c : N) : Matcher := rx_class (N.eqb c).

Definition rx_seq (a b : Matcher) : Matcher :=
  fun s => flat_map (fun '(x, r) => map (fun '(y, r') => (x ++ y, r')) (b r)) (a s).

Definition rx_alt (a b : Matcher) : Matcher := fun s => a s ++ b s.

(** Greedy [?]: first with the item, then without. *)
Definition rx_opt (a : Matcher) : Matcher := fun s => a s ++ [([], s)].

Definition in01 (c : N) : bool := (c =? 48) || (c =? 49).
Definition in03 (c : N) : bool := (48 <=? c) && (c <=? 51).
Definition in05 (c : N) : bool := (48 <=? c) && (c <=? 53).

(** [([01]?\d|2[0-3])] *)
Definition hourGroup : Matcher :=
  rx_alt (rx_seq (rx_opt (rx_class in01)) (rx_class isDigit))
         (rx_seq (rx_char 50) (rx_class in03)).

(** [([0-5]\d)] *)
Definition minuteGroup : Matcher :=
  rx_seq (rx_class in05) (rx_class isDigit).

(** [regex.exec(s)]: the two capture groups of the first successful way
    to match the whole pattern between [^] and [$], or [None] for
    JavaScript's [null]. *)
Definition timeRegex_exec (s : jsstring) : option (jsstring * jsstring) :=
  hd_error
    (flat_map (fun '(g1, r1) =>
       flat_map (fun '(_, r2) =>
         flat_map (fun '(g2, r3) =>
           match r3 with
           | [] => [(g1, g2)]
           | _ :: _ => []
           end) (minuteGroup r2)) (rx_char 58 r1)) (hourGroup s)).

(** ** Time helpers *)

Module ParsedTime.
Record t := mk { hour : Z; minute : Z }.
End ParsedTime.

Definition formatTime (hour minute : Z) : jsstring :=
  padStart 2 48 (toString hour) ++ [58] ++ padStart 2 48 (toString minute).

Definition parseTime (raw : jsstring) : option ParsedTime.t :=
  match timeRegex_exec (trim raw) with
  | None => None
  | Some (g1, g2) => Some (ParsedTime.mk (Number g1) (Number g2))
  end.

(** ** Data of the application *)

Inductive Screen := tools | foodWastePreventer.

Module MealEntry.
Record t := mk {
  id : jsstring;
  name : jsstring;
  hour : Z;
  minute : Z;
  notificationId : jsstring;
  createdAt : Z
}.
End MealEntry.

Module ActiveAlarm.
Record t := mk { mealId : jsstring; mealName : jsstring }.
End ActiveAlarm.

(** The [data] object attached to a notification, read by the program as
    [{ mealId?: string; mealName?: string }]. *)
Module NotificationData.
Record t := mk { mealId : option jsstring; mealName : option jsstring }.
End NotificationData.

Record NotificationContent := { data : NotificationData.t }.
Record NotificationRequest := { content : NotificationContent }.
Record Notification := { request : NotificationRequest }.
Record NotificationResponse := { notification : Notification }.

(** The argument of [scheduleNotificationAsync]: the content and the
    daily trigger. *)
Module ScheduleInput.
Record t := mk {
  title : jsstring;
  body : jsstring;
  sound : jsstring;
  data : NotificationData.t;
  hour : Z;
  minute : Z;
  channelId : jsstring
}.
End ScheduleInput.

Definition STORAGE_KEY : jsstring := js "foodWastePreventer:meals:v1".

(** Truthiness of an optional string property: [undefined] and the empty
    string are falsy. *)
Definition truthy (v : option jsstring) : bool :=
  match v with
  | Some s => truthyString s
  | None => false
  end.

Definition valueOf (v : option jsstring) : jsstring :=
  match v with
  | Some s => s
  | None => []
  end.

(** ** Collaborators

    Calls to the platform are recorded, newest first, in a trace.  The
    storage cell is the value under [STORAGE_KEY]; the JSON text is
    identified with the list it serialises ([JSON.parse] after
    [JSON.stringify] gives the list back), [None] is an absent key.
    Storage calls take effect in the order the program issues them. *)
Inductive Effect :=
| GetPermissions
| RequestPermissions
| SetNotificationChannel (channel : jsstring)
| GetLastNotificationResponse
| AddNotificationReceivedListener
| AddNotificationResponseReceivedListener
| RemoveSubscriptions
| GetItem (key : jsstring)
| SetItem (key : jsstring) (value : list MealEntry.t)
| ScheduleNotification (input : ScheduleInput.t) (handle : jsstring)
| CancelScheduledNotification (handle : jsstring)
| AlertShown (title message : jsstring)
| Vibrate (ms : Z)
| VibrationCancel
| SetInterval (timer : nat) (ms : Z)
| ClearInterval (timer : nat).

(** ** The world: component state, hook bookkeeping, collaborators

    The first six fields are the [useState] cells of [App], the seventh
    its [useRef].  [mealsChanged] and [activeAlarmChanged] say that the
    value a dependency list watches has a new identity since the last
    commit, so the effect has to run; [vibrationCleanup] says that the
    last run of the vibration effect returned a cleanup function.  The
    remaining fields belong to the platform: the daily triggers held by
    the notification service, the storage cell, the live [setInterval]
    timers, and the trace. *)
Record World := mkWorld {
  screen : Screen;
  meals : list MealEntry.t;
  mealName : jsstring;
  dailyTime : jsstring;
  activeAlarm : option ActiveAlarm.t;
  alarmSentence : jsstring;
  vibrationIntervalRef : option nat;
  mealsChanged : bool;
  activeAlarmChanged : bool;
  vibrationCleanup : bool;
  scheduled : list (jsstring * ScheduleInput.t);
  storage : option (list MealEntry.t);
  intervals : list nat;
  nextTimer : nat;
  trace : list Effect
}.

Definition with_screen v w :=
  mkWorld v (meals w) (mealName w) (dailyTime w) (activeAlarm w) (alarmSentence w)
    (vibrationIntervalRef w) (mealsChanged w) (activeAlarmChanged w) (vibrationCleanup w)
    (scheduled w) (storage w) (intervals w) (nextTimer w) (trace w).
Definition with_meals v w :=
  mkWorld (screen w) v (mealName w) (dailyTime w) (activeAlarm w) (alarmSentence w)
    (vibrationIntervalRef w) (mealsChanged w) (activeAlarmChanged w) (vibrationCleanup w)
    (scheduled w) (storage w) (intervals w) (nextTimer w) (trace w).
Definition with_mealName v w :=
  mkWorld (screen w) (meals w) v (dailyTime w) (activeAlarm w) (alarmSentence w)
    (vibrationIntervalRef w) (mealsChanged w) (activeAlarmChanged w) (vibrationCleanup w)
    (scheduled w) (storage w) (intervals w) (nextTimer w) (trace w).
Definition with_dailyTime v w :=
  mkWorld (screen w) (meals w) (mealName w) v (activeAlarm w) (alarmSentence w)
    (vibrationIntervalRef w) (mealsChanged w) (activeAlarmChanged w) (vibrationCleanup w)
    (scheduled w) (storage w) (intervals w) (nextTimer w) (trace w).
Definition with_activeAlarm v w :=
  mkWorld (screen w) (meals w) (mealName w) (dailyTime w) v (alarmSentence w)
    (vibrationIntervalRef w) (mealsChanged w) (activeAlarmChanged w) (vibrationCleanup w)
    (scheduled w) (storage w) (intervals w) (nextTimer w) (trace w).
Definition with_alarmSentence v w :=
  mkWorld (screen w) (meals w) (mealName w) (dailyTime w) (activeAlarm w) v
    (vibrationIntervalRef w) (mealsChanged w) (activeAlarmChanged w) (vibrationCleanup w)
    (scheduled w) (storage w) (intervals w) (nextTimer w) (trace w).
Definition with_vibrationIntervalRef v w :=
  mkWorld (screen w) (meals w) (mealName w) (dailyTime w) (activeAlarm w) (alarmSentence w)
    v (mealsChanged w) (activeAlarmChanged w) (vibrationCleanup w)
    (scheduled w) (storage w) (intervals w) (nextTimer w) (trace w).
Definition with_mealsChanged v w :=
  mkWorld (screen w) (meals w) (mealName w) (dailyTime w) (activeAlarm w) (alarmSentence w)
    (vibrationIntervalRef w) v (activeAlarmChanged w) (vibrationCleanup w)
    (scheduled w) (storage w) (intervals w) (nextTimer w) (trace w).
Definition with_activeAlarmChanged v w :=
  mkWorld (screen w) (meals w) (mealName w) (dailyTime w) (activeAlarm w) (alarmSentence w)
    (vibrationIntervalRef w) (mealsChanged w) v (vibrationCleanup w)
    (scheduled w) (storage w) (intervals w) (nextTimer w) (trace w).
Definition with_vibrationCleanup v w :=
  mkWorld (screen w) (meals w) (mealName w) (dailyTime w) (activeAlarm w) (alarmSentence w)
    (vibrationIntervalRef w) (mealsChanged w) (activeAlarmChanged w) v
    (scheduled w) (storage w) (intervals w) (nextTimer w) (trace w).
Definition with_scheduled v w :=
  mkWorld (screen w) (meals w) (mealName w) (dailyTime w) (activeAlarm w) (alarmSentence w)
    (vibrationIntervalRef w) (mealsChanged w) (activeAlarmChanged w) (vibrationCleanup w)
    v (storage w) (intervals w) (nextTimer w) (trace w).
Definition with_storage v w :=
  mkWorld (screen w) (meals w) (mealName w) (dailyTime w) (activeAlarm w) (alarmSentence w)
    (vibrationIntervalRef w) (mealsChanged w) (activeAlarmChanged w) (vibrationCleanup w)
    (scheduled w) v (intervals w) (nextTimer w) (trace w).
Definition with_intervals v w :=
  mkWorld (screen w) (meals w) (mealName w) (dailyTime w) (activeAlarm w) (alarmSentence w)
    (vibrationIntervalRef w) (mealsChanged w) (activeAlarmChanged w) (vibrationCleanup w)
    (scheduled w) (storage w) v (nextTimer w) (trace w).
Definition with_nextTimer v w :=
  mkWorld (screen w) (meals w) (mealName w) (dailyTime w) (activeAlarm w) (alarmSentence w)
    (vibrationIntervalRef w) (mealsChanged w) (activeAlarmChanged w) (vibrationCleanup w)
    (scheduled w) (storage w) (intervals w) v (trace w).

(** Record one call to a collaborator. *)
Definition emit (e : Effect) (w : World) : World :=
  mkWorld (screen w) (meals w) (mealName w) (dailyTime w) (activeAlarm w) (alarmSentence w)
    (vibrationIntervalRef w) (mealsChanged w) (activeAlarmChanged w) (vibrationCleanup w)
    (scheduled w) (storage w) (intervals w) (nextTimer w) (e :: trace w).

(** *** Platform calls *)

Definition Alert_alert (title message : jsstring) (w : World) : World :=
  emit (AlertShown title message) w.

(** [AsyncStorage.setItem(STORAGE_KEY, JSON.stringify(value))] *)
Definition AsyncStorage_setItem (value : list MealEntry.t) (w : World) : World :=
  emit (SetItem STORAGE_KEY value) (with_storage (Some value) w).

(** [AsyncStorage.getItem(STORAGE_KEY)]; the value read is [storage w]. *)
Definition AsyncStorage_getItem (w : World) : World :=
  emit (GetItem STORAGE_KEY) w.

(** [Notifications.scheduleNotificationAsync(input)], the service
    answering with the identifier [handle]. *)
Definition scheduleNotificationAsync (input : ScheduleInput.t) (handle : jsstring)
    (w : World) : World :=
  emit (ScheduleNotification input handle)
       (with_scheduled ((handle, input) :: scheduled w) w).

(** [Notifications.cancelScheduledNotificationAsync(handle)] *)
Definition cancelScheduledNotificationAsync (handle : jsstring) (w : World) : World :=
  emit (CancelScheduledNotification handle)
       (with_scheduled
          (filter (fun t => negb (jsstring_eqb (fst t) handle)) (scheduled w)) w).

Definition Vibration_vibrate (ms : Z) (w : World) : World := emit (Vibrate ms) w.

Definition Vibration_cancel (w : World) : World := emit VibrationCancel w.

(** [setInterval(callback, ms)]: a new live timer; identifiers are
    positive, hence truthy. *)
Definition setInterval (ms : Z) (w : World) : nat * World :=
  let t := S (nextTimer w) in
  (t, emit (SetInterval t ms) (with_nextTimer t (with_intervals (t :: intervals w) w))).

Definition clearInterval (t : nat) (w : World) : World :=
  emit (ClearInterval t)
       (with_intervals (filter (fun u => negb (Nat.eqb u t)) (intervals w)) w).

(** *** State setters

    A setter that receives a fresh array or object gives the cell a new
    identity, so the effects depending on it run at the next commit.
    [setActiveAlarm(null)] on a [null] cell is React's bail-out: nothing
    changes and no effect runs. *)
Definition setScreen (s : Screen) (w : World) : World := with_screen s w.

Definition setMeals (update : list MealEntry.t -> list MealEntry.t) (w : World) : World :=
  with_mealsChanged true (with_meals (update (meals w)) w).

Definition setMealName (s : jsstring) (w : World) : World := with_mealName s w.

Definition setDailyTime (s : jsstring) (w : World) : World := with_dailyTime s w.

Definition setAlarmSentence (s : jsstring) (w : World) : World := with_alarmSentence s w.

Definition setActiveAlarm (a : option ActiveAlarm.t) (w : World) : World :=
  match a, activeAlarm w with
  | None, None => w
  | _, _ => with_activeAlarmChanged true (with_activeAlarm a w)
  end.

(** ** Hooks of [App] *)

(** The initial render: the arguments of the [useState] and [useRef]
    calls, over whatever the platform holds from earlier runs. *)
Definition initialWorld (triggers : list (jsstring * ScheduleInput.t))
    (stored : option (list MealEntry.t)) : World :=
  mkWorld tools [] [] (js "18:00") None [] None false false false
          triggers stored [] 0 [].

(** First effect, [setupNotifications], in the three stretches between
    its awaits.  [granted] and [requestedGranted] are the answers of the
    permission calls, [lastResponse] the answer of
    [getLastNotificationResponseAsync]. *)
Definition setupPermissions (granted requestedGranted : bool) (w : World) : World :=
  let w :=
    if granted then w
    else
      let w := emit RequestPermissions w in
      if requestedGranted then w
      else Alert_alert (js "Notifications are off")
             (js "Enable notifications so daily meal reminders can ring like alarms.") w in
  emit (SetNotificationChannel (js "food-reminders")) w.

Definition setupLoad (w : World) : World :=
  let raw := storage w in
  let w := AsyncStorage_getItem w in
  match raw with
  | Some parsed => setMeals (fun _ => parsed) w
  | None => w
  end.

Definition setupColdStart (lastResponse : option NotificationResponse) (w : World) : World :=
  let w := emit GetLastNotificationResponse w in
  match lastResponse with
  | None => w
  | Some r =>
      let d := data (content (request (notification r))) in
      if truthy (NotificationData.mealId d) && truthy (NotificationData.mealName d)
      then setActiveAlarm
             (Some (ActiveAlarm.mk (valueOf (NotificationData.mealId d))
                                   (valueOf (NotificationData.mealName d)))) w
      else w
  end.

(** Second effect: persist the list, dependency [meals]. *)
Definition persistEffect (w : World) : World := AsyncStorage_setItem (meals w) w.

(** Third effect: the two notification listeners. *)
Definition onNotificationReceived (n : Notification) (w : World) : World :=
  let d := data (content (request n)) in
  if negb (truthy (NotificationData.mealId d)) || negb (truthy (NotificationData.mealName d))
  then w
  else
    let w := setActiveAlarm
               (Some (ActiveAlarm.mk (valueOf (NotificationData.mealId d))
                                     (valueOf (NotificationData.mealName d)))) w in
    setScreen foodWastePreventer w.

Definition onNotificationResponseReceived (r : NotificationResponse) (w : World) : World :=
  let d := data (content (request (notification r))) in
  if negb (truthy (NotificationData.mealId d)) || negb (truthy (NotificationData.mealName d))
  then w
  else
    let w := setActiveAlarm
               (Some (ActiveAlarm.mk (valueOf (NotificationData.mealId d))
                                     (valueOf (NotificationData.mealName d)))) w in
    setScreen foodWastePreventer w.

(** Fourth effect: the vibration pulse, dependency [activeAlarm]. *)
Definition vibrationEffect (w : World) : World :=
  match activeAlarm w with
  | None =>
      let w :=
        match vibrationIntervalRef w with
        | Some t => with_vibrationIntervalRef None (clearInterval t w)
        | None => w
        end in
      let w := Vibration_cancel w in
      let w := setAlarmSentence [] w in
      with_vibrationCleanup false w
  | Some _ =>
      let w := Vibration_vibrate 1000 w in
      let '(t, w) := setInterval 1500 w in
      let w := with_vibrationIntervalRef (Some t) w in
      with_vibrationCleanup true w
  end.

Definition vibrationEffect_cleanup (w : World) : World :=
  let w :=
    match vibrationIntervalRef w with
    | Some t => with_vibrationIntervalRef None (clearInterval t w)
    | None => w
    end in
  Vibration_cancel w.

(** Mounting runs every effect once, in source order; of
    [setupNotifications] only the call before its first await happens
    here. *)
Definition mount (w : World) : World :=
  let w := emit GetPermissions w in
  let w := persistEffect w in
  let w := emit AddNotificationReceivedListener w in
  let w := emit AddNotificationResponseReceivedListener w in
  vibrationEffect w.

(** A commit after an update: each effect whose dependency changed runs,
    the vibration effect after the cleanup its previous run returned. *)
Definition runEffects (w : World) : World :=
  let w := if mealsChanged w then persistEffect (with_mealsChanged false w) else w in
  if activeAlarmChanged w then
    let w := with_activeAlarmChanged false w in
    let w := if vibrationCleanup w then vibrationEffect_cleanup w else w in
    vibrationEffect w
  else w.

(** Unmounting runs the cleanups of the third and fourth effects. *)
Definition unmount (w : World) : World :=
  let w := emit RemoveSubscriptions w in
  if vibrationCleanup w then with_vibrationCleanup false (vibrationEffect_cleanup w) else w.

(** ** Callbacks of [App] *)

(** [addMeal] up to its await.  [now] is [Date.now()], [random] is
    [Math.random().toString(36).slice(2, 8)]. *)
Inductive AddMealStart :=
| AddRejected (title message : jsstring)
| AddScheduling (id trimmedName : jsstring) (parsedTime : ParsedTime.t)
                (input : ScheduleInput.t).

Definition addMeal_start (mealName dailyTime : jsstring) (now : Z) (random : jsstring)
    : AddMealStart :=
  let trimmedName := trim mealName in
  if negb (truthyString trimmedName) then
    AddRejected (js "Meal required") (js "Enter a meal name like Tuna casserole.")
  else
    match parseTime dailyTime with
    | None => AddRejected (js "Time format") (js "Use 24h HH:MM format, for example 18:30.")
    | Some parsedTime =>
        let id := toString now ++ js "-" ++ random in
        AddScheduling id trimmedName parsedTime
          (ScheduleInput.mk
             (js "Food Waste Preventer")
             (js "Use your " ++ trimmedName ++ js " today.")
             (js "default")
             (NotificationData.mk (Some id) (Some trimmedName))
             (ParsedTime.hour parsedTime)
             (ParsedTime.minute parsedTime)
             (js "food-reminders"))
    end.

(** [addMeal] after its await: [notificationId] is what the service
    returned, [now'] the second [Date.now()].  The list is updated through
    the functional form of [setMeals], so on the list as it is then. *)
Definition addMeal_finish (id trimmedName : jsstring) (parsedTime : ParsedTime.t)
    (notificationId : jsstring) (now' : Z) (w : World) : World :=
  let nextEntry :=
    MealEntry.mk id trimmedName (ParsedTime.hour parsedTime) (ParsedTime.minute parsedTime)
                 notificationId now' in
  let w := setMeals (fun prev => nextEntry :: prev) w in
  setMealName [] w.

(** [addMeal] as far as its await: the advisory, or the call to the
    notification service, which answers with [notificationId]. *)
Definition addMeal_request (now : Z) (random notificationId : jsstring) (w : World)
    : World :=
  match addMeal_start (mealName w) (dailyTime w) now random with
  | AddRejected title message => Alert_alert title message w
  | AddScheduling _ _ _ input => scheduleNotificationAsync input notificationId w
  end.

(** The whole of [addMeal], the await resolving before any other event. *)
Definition addMeal (now : Z) (random notificationId : jsstring) (now' : Z)
    (w : World) : World :=
  match addMeal_start (mealName w) (dailyTime w) now random with
  | AddRejected title message => Alert_alert title message w
  | AddScheduling id trimmedName parsedTime input =>
      addMeal_finish id trimmedName parsedTime notificationId now'
        (scheduleNotificationAsync input notificationId w)
  end.

(** [cancelMealAlarm] as far as its await. *)
Definition cancelMealAlarm_request (mealId : jsstring) (w : World) : World :=
  match find (fun meal => jsstring_eqb (MealEntry.id meal) mealId) (meals w) with
  | None => w
  | Some target => cancelScheduledNotificationAsync (MealEntry.notificationId target) w
  end.

(** [cancelMealAlarm] after its await.  [closureMealId] is
    [activeAlarm?.mealId] as the callback captured it. *)
Definition cancelMealAlarm_finish (closureMealId : option jsstring) (mealId : jsstring)
    (w : World) : World :=
  let w := setMeals (filter (fun meal => negb (jsstring_eqb (MealEntry.id meal) mealId))) w in
  match closureMealId with
  | Some active => if jsstring_eqb active mealId then setActiveAlarm None w else w
  | None => w
  end.

(** The whole of [cancelMealAlarm], the await resolving before any other
    event; the callback is rebuilt on every change of [meals] and
    [activeAlarm?.mealId], so it captures the current values. *)
Definition cancelMealAlarm (mealId : jsstring) (w : World) : World :=
  match find (fun meal => jsstring_eqb (MealEntry.id meal) mealId) (meals w) with
  | None => w
  | Some target =>
      let w' := cancelScheduledNotificationAsync (MealEntry.notificationId target) w in
      cancelMealAlarm_finish (option_map ActiveAlarm.mealId (activeAlarm w)) mealId w'
  end.

(** From here on [toLowerCase] stands for [String.prototype.toLowerCase]. *)
Section LowerCase.

Variable toLowerCase : jsstring -> jsstring.

Set Default Proof Using "Type".

Definition requiredSentence (activeAlarm : option ActiveAlarm.t) : jsstring :=
  match activeAlarm with
  | None => []
  | Some a =>
      js "my name is sarah and i will use the "
         ++ toLowerCase (ActiveAlarm.mealName a) ++ js " today"
  end.

Definition canAcknowledge (alarmSentence requiredSentence : jsstring) : bool :=
  jsstring_eqb (toLowerCase (trim alarmSentence)) requiredSentence.

(** ** What is rendered *)

(** [<Modal visible={Boolean(activeAlarm)}>] *)
Definition modalVisible (w : World) : bool :=
  match activeAlarm w with Some _ => true | None => false end.

(** The "Dismiss For Now" and "Cancel This Alarm" buttons are rendered
    inside the modal, in the [canAcknowledge] branch. *)
Definition alarmActionsShown (w : World) : bool :=
  modalVisible w && canAcknowledge (alarmSentence w) (requiredSentence (activeAlarm w)).

(** [onPress] of "Dismiss For Now". *)
Definition pressDismiss (w : World) : World := setActiveAlarm None w.

(** [onPress] of "Cancel This Alarm". *)
Definition pressCancelThisAlarm (w : World) : World :=
  match activeAlarm w with
  | Some a => cancelMealAlarm (ActiveAlarm.mealId a) w
  | None => w
  end.

(** ** Events

    Everything that can happen to the mounted component: the later
    stretches of [setupNotifications], the two notification listeners,
    the controls of the two screens, the controls of the alarm modal, and
    the second halves of [addMeal] and [cancelMealAlarm], which run when
    their await resolves, possibly after other events, with whatever the
    closure captured. *)
Inductive Event :=
| SetupPermissions (granted requestedGranted : bool)
| SetupLoad
| SetupColdStart (lastResponse : option NotificationResponse)
| NotificationReceived (n : Notification)
| NotificationResponseReceived (r : NotificationResponse)
| PressFoodWastePreventer
| PressBack
| ChangeMealName (text : jsstring)
| ChangeDailyTime (text : jsstring)
| PressAdd (now : Z) (random notificationId : jsstring)
| PressCancelItem (mealId : jsstring)
| ChangeAlarmSentence (text : jsstring)
| PressDismiss
| PressCancelThisAlarm
| AddMealResolved (id trimmedName : jsstring) (parsedTime : ParsedTime.t)
                  (notificationId : jsstring) (now' : Z)
| CancelMealResolved (closureMealId : option jsstring) (mealId : jsstring).

(** A control can be used only while it is on screen; the modal covers
    both screens. *)
Definition enabled (e : Event) (w : World) : bool :=
  match e with
  | PressFoodWastePreventer =>
      negb (modalVisible w) && match screen w with tools => true | _ => false end
  | PressBack | ChangeMealName _ | ChangeDailyTime _ | PressAdd _ _ _ =>
      negb (modalVisible w) && match screen w with foodWastePreventer => true | _ => false end
  | PressCancelItem mealId =>
      negb (modalVisible w)
      && match screen w with foodWastePreventer => true | _ => false end
      && existsb (fun meal => jsstring_eqb (MealEntry.id meal) mealId) (meals w)
  | ChangeAlarmSentence _ => modalVisible w
  | PressDismiss | PressCancelThisAlarm => alarmActionsShown w
  | _ => true
  end.

Definition handle (e : Event) (w : World) : World :=
  match e with
  | SetupPermissions granted requestedGranted => setupPermissions granted requestedGranted w
  | SetupLoad => setupLoad w
  | SetupColdStart lastResponse => setupColdStart lastResponse w
  | NotificationReceived n => onNotificationReceived n w
  | NotificationResponseReceived r => onNotificationResponseReceived r w
  | PressFoodWastePreventer => setScreen foodWastePreventer w
  | PressBack => setScreen tools w
  | ChangeMealName text => setMealName text w
  | ChangeDailyTime text => setDailyTime text w
  | PressAdd now random notificationId => addMeal_request now random notificationId w
  | PressCancelItem mealId => cancelMealAlarm_request mealId w
  | ChangeAlarmSentence text => setAlarmSentence text w
  | PressDismiss => pressDismiss w
  | PressCancelThisAlarm =>
      match activeAlarm w with
      | Some a => cancelMealAlarm_request (ActiveAlarm.mealId a) w
      | None => w
      end
  | AddMealResolved id trimmedName parsedTime notificationId now' =>
      addMeal_finish id trimmedName parsedTime notificationId now' w
  | CancelMealResolved closureMealId mealId => cancelMealAlarm_finish closureMealId mealId w
  end.

(** One event: the handler, then the commit with its effects. *)
Definition step (e : Event) (w : World) : World := runEffects (handle e w).

Fixpoint run (es : list Event) (w : World) : World :=
  match es with
  | [] => w
  | e :: es' => run es' (step e w)
  end.

(** The states the mounted component can be in. *)
Inductive reachable : World -> Prop :=
| reachable_mount : forall triggers stored,
    reachable (mount (initialWorld triggers stored))
| reachable_step : forall w e,
    reachable w -> enabled e w = true -> reachable (step e w).

(** ** Definitions used to state the properties *)

(** The accepted time texts in the words of the specification: [H:MM] or
    [HH:MM], hour 0-23 with an optional leading zero, minute 00-59; the
    result is the pair of numbers the text denotes. *)
Definition spec_timeText (s : jsstring) : option ParsedTime.t :=
  match s with
  | [h; sep; m1; m2] =>
      if isDigit h && (sep =? 58) && isDigit m1 && isDigit m2
         && (10 * digitVal m1 + digitVal m2 <=? 59)%Z
      then Some (ParsedTime.mk (digitVal h) (10 * digitVal m1 + digitVal m2))
      else None
  | [h1; h2; sep; m1; m2] =>
      if isDigit h1 && isDigit h2 && (sep =? 58) && isDigit m1 && isDigit m2
         && (10 * digitVal h1 + digitVal h2 <=? 23)%Z
         && (10 * digitVal m1 + digitVal m2 <=? 59)%Z
      then Some (ParsedTime.mk (10 * digitVal h1 + digitVal h2)
                               (10 * digitVal m1 + digitVal m2))
      else None
  | _ => None
  end.

(** A matcher takes digits only. *)
Definition allDigits (m : Matcher) : Prop :=
  forall s g r, In (g, r) (m s) -> forallb isDigit g = true.

(** A matcher never matches the empty text. *)
Definition consumes (m : Matcher) : Prop :=
  forall s g r, In (g, r) (m s) -> g <> [].

(** The text [HH:MM] of a clock time, digit by digit. *)
Definition clockText (h m : Z) : jsstring :=
  [48 + Z.to_N (h / 10); 48 + Z.to_N (h mod 10); 58;
   48 + Z.to_N (m / 10); 48 + Z.to_N (m mod 10)].

(** The round trip through [formatTime] and [parseTime], as a test. *)
Definition roundtrip_check (h m : Z) : bool :=
  jsstring_eqb (formatTime h m) (clockText h m)
  && match parseTime (formatTime h m) with
     | Some t => (ParsedTime.hour t =? h)%Z && (ParsedTime.minute t =? m)%Z
     | None => false
     end.

(** The session of the specification's example. *)
Definition tunaCasserole : ActiveAlarm.t :=
  ActiveAlarm.mk (js "1700000000000-k3x9qa") (js "Tuna Casserole").

(** The notification, and the response to a tap, that carry a payload. *)
Definition notificationOf (d : NotificationData.t) : Notification :=
  {| request := {| content := {| data := d |} |} |}.

Definition responseOf (d : NotificationData.t) : NotificationResponse :=
  {| notification := notificationOf d |}.

(** No effect is pending: the state is as a commit leaves it. *)
Definition settled (w : World) : Prop :=
  mealsChanged w = false /\ activeAlarmChanged w = false.

(** The freshly mounted component with the form of the specification's
    example filled in. *)
Definition tunaForm : World :=
  with_dailyTime (js "18:30") (with_mealName (js " Tuna ") (mount (initialWorld [] None))).

(** Number of [setInterval] calls in a trace. *)
Fixpoint timersStarted (tr : list Effect) : nat :=
  match tr with
  | [] => 0
  | SetInterval _ _ :: r => S (timersStarted r)
  | _ :: r => timersStarted r
  end.

(** The timer bookkeeping is tidy: the ref, the live timers and the
    stored cleanup agree with each other. *)
Definition timersTidy (w : World) : Prop :=
  match vibrationIntervalRef w with
  | Some t => intervals w = [t] /\ vibrationCleanup w = true
  | None => intervals w = [] /\ vibrationCleanup w = false
  end.

(** The invariant of the mounted component between events: nothing is
    pending, one timer runs exactly while a session is active, and the
    confirmation text is empty while none is. *)
Definition pulseInvariant (w : World) : Prop :=
  settled w
  /\ timersTidy w
  /\ match activeAlarm w with
     | Some _ => vibrationIntervalRef w <> None
     | None => vibrationIntervalRef w = None /\ alarmSentence w = []
     end.

(** Every event along the way is offered by the screen at that moment. *)
Fixpoint allEnabled (es : list Event) (w : World) : bool :=
  match es with
  | [] => true
  | e :: es' => enabled e w && allEnabled es' (step e w)
  end.

(** The payload of the reminder for the example session. *)
Definition tunaPayload : NotificationData.t :=
  NotificationData.mk (Some (js "1700000000000-k3x9qa")) (Some (js "Tuna Casserole")).

(** What an earlier run left behind for the example meal: its entry in
    storage and its daily trigger with the notification service. *)
Definition tunaEntry : MealEntry.t :=
  MealEntry.mk (js "1700000000000-k3x9qa") (js "Tuna Casserole") 18 30
               (js "trigger-1") 1700000000007.

Definition tunaTrigger : jsstring * ScheduleInput.t :=
  (js "trigger-1",
   ScheduleInput.mk (js "Food Waste Preventer") (js "Use your Tuna Casserole today.")
                    (js "default") tunaPayload 18 30 (js "food-reminders")).

(** The app started again over that storage and that trigger, the
    reminder delivered, and the unlock sentence typed in full. *)
Definition ringingAfterRestart : World :=
  run [SetupPermissions true true;
       SetupLoad;
       SetupColdStart None;
       NotificationReceived (notificationOf tunaPayload);
       ChangeAlarmSentence (js "my name is sarah and i will use the tuna casserole today")]
      (mount (initialWorld [tunaTrigger] (Some [tunaEntry]))).

(** The payload of the reminder for a second meal. *)
Definition soupPayload : NotificationData.t :=
  NotificationData.mk (Some (js "1700000000500-zz81ab")) (Some (js "Soup")).

(** The reminder for the example meal delivered, and the first words of
    the unlock sentence typed. *)
Definition typingWhileRinging : World :=
  run [NotificationReceived (notificationOf tunaPayload);
       ChangeAlarmSentence (js "my name is")]
      (mount (initialWorld [] None)).

(** A meal added through the form, its notification delivered, and the
    unlock sentence typed in full. *)
Definition ringingListed : World :=
  run [PressFoodWastePreventer;
       ChangeMealName (js " Tuna Casserole ");
       ChangeDailyTime (js "18:30");
       PressAdd 1700000000000 (js "k3x9qa") (js "trigger-1");
       AddMealResolved (js "1700000000000-k3x9qa") (js "Tuna Casserole")
                       (ParsedTime.mk 18 30) (js "trigger-1") 1700000000007;
       NotificationReceived (notificationOf tunaPayload);
       ChangeAlarmSentence (js "My name is Sarah and I will use the Tuna Casserole today")]
      (mount (initialWorld [] None)).

(** The text consists of white space only. *)
Definition allWhiteSpace (s : jsstring) : bool := forallb isWhiteSpace s.

(** The list and the notification service agree: entry by entry the
    handle of a meal is the handle of a registered trigger, and neither
    ids nor handles repeat. *)
Definition inSync (w : World) : Prop :=
  map MealEntry.notificationId (meals w) = map fst (scheduled w)
  /\ NoDup (map MealEntry.id (meals w))
  /\ NoDup (map fst (scheduled w)).

(** The id [addMeal] generates from the clock and the random suffix. *)
Definition generatedId (now : Z) (random : jsstring) : jsstring :=
  toString now ++ js "-" ++ random.

(** * Properties *)

(** Proof automation. *)

Ltac eval_tests := cbn -[N.eqb N.leb Z.leb Z.mul Z.add Z.sub Z.of_N].

Ltac decide_test :=
  match goal with
  | |- context [N.leb ?a ?b] =>
      first [ change (N.leb a b) with true
            | change (N.leb a b) with false
            | rewrite (proj2 (N.leb_le a b)) by lia
            | rewrite (proj2 (N.leb_gt a b)) by lia ]
  | |- context [N.eqb ?a ?b] =>
      first [ change (N.eqb a b) with true
            | change (N.eqb a b) with false
            | rewrite (proj2 (N.eqb_eq a b)) by lia
            | rewrite (proj2 (N.eqb_neq a b)) by lia ]
  | |- context [Z.leb ?a ?b] =>
      first [ change (Z.leb a b) with true
            | change (Z.leb a b) with false
            | rewrite (proj2 (Z.leb_le a b)) by lia
            | rewrite (proj2 (Z.leb_gt a b)) by lia ]
  end.

Ltac decide_tests := repeat (decide_test; eval_tests).

Ltac world_cases w :=
  destruct w as [sc ms mn dt aa asn ref mc ac vc sch st iv nt tr];
  destruct aa, ref, mc, ac, vc; cbn.

Ltac break_match :=
  match goal with
  | |- context [match ?x with _ => _ end] =>
      lazymatch x with
      | context [match _ with _ => _ end] => fail
      | _ => destruct x eqn:?
      end
  end.

(** ** The time helpers *)

(** Every test the pattern makes on a code unit is decided by the place
    of the unit among the digits and the colon. *)
Lemma unit_cases (c : N) :
  c < 48 \/ c = 48 \/ c = 49 \/ c = 50 \/ c = 51 \/ 52 <= c <= 53
  \/ 54 <= c <= 57 \/ c = 58 \/ 58 < c.
Proof. lia. Qed.

Ltac by_unit c :=
  destruct (unit_cases c) as [?|[?|[?|[?|[?|[?|[?|[?|?]]]]]]]];
  subst; decide_tests; try reflexivity.

(** On every text, trimmed or not, the matcher and the conversion of its
    two groups give what the specification's reading of the text gives. *)
Lemma timeRegex_refines_spec (t : jsstring) :
  match timeRegex_exec t with
  | None => None
  | Some (g1, g2) => Some (ParsedTime.mk (Number g1) (Number g2))
  end = spec_timeText t.
Proof.
  destruct t as [|a [|b [|c [|d [|e [|f r]]]]]];
    cbv [timeRegex_exec hourGroup minuteGroup rx_alt rx_seq rx_opt rx_char rx_class
         in01 in03 in05 isDigit spec_timeText Number digitVal];
    eval_tests; try reflexivity.
  - by_unit a.
  - by_unit a; by_unit b.
  - by_unit a; by_unit b; by_unit c.
  - by_unit a; by_unit b; by_unit c; by_unit d; f_equal; f_equal; lia.
  - by_unit a; by_unit b; by_unit c; by_unit d; by_unit e; f_equal; f_equal; lia.
  - by_unit a; by_unit b; by_unit c; by_unit d; by_unit e; by_unit f.
Qed.

Lemma rx_class_allDigits (p : N -> bool) :
  (forall c, p c = true -> isDigit c = true) -> allDigits (rx_class p).
Proof.
  clear toLowerCase.
  intros Hp [|c s] g r; simpl; [tauto|].
  destruct (p c) eqn:Hc; simpl; [|tauto].
  intros [H|[]]. injection H as <- <-. simpl. now rewrite (Hp c Hc).
Qed.

Lemma rx_class_consumes (p : N -> bool) : consumes (rx_class p).
Proof.
  clear toLowerCase.
  intros [|c s] g r; simpl; [tauto|].
  destruct (p c); simpl; [|tauto].
  intros [H|[]]. injection H as <- <-. discriminate.
Qed.

Lemma rx_seq_inv (a b : Matcher) s g r :
  In (g, r) (rx_seq a b s) ->
  exists x y r1, In (x, r1) (a s) /\ In (y, r) (b r1) /\ g = x ++ y.
Proof.
  unfold rx_seq. intro H. apply in_flat_map in H as ([x r1] & Ha & H).
  apply in_map_iff in H as ([y r'] & Heq & Hb). injection Heq as <- <-.
  now exists x, y, r1.
Qed.

Lemma rx_seq_allDigits (a b : Matcher) :
  allDigits a -> allDigits b -> allDigits (rx_seq a b).
Proof.
  intros Ha Hb s g r H. apply rx_seq_inv in H as (x & y & r1 & Hx & Hy & ->).
  rewrite forallb_app, (Ha _ _ _ Hx), (Hb _ _ _ Hy). reflexivity.
Qed.

Lemma rx_seq_consumes (a b : Matcher) : consumes b -> consumes (rx_seq a b).
Proof.
  intros Hb s g r H. apply rx_seq_inv in H as (x & y & r1 & _ & Hy & ->).
  intro Hnil. apply app_eq_nil in Hnil as [_ Hnil]. exact (Hb _ _ _ Hy Hnil).
Qed.

Lemma rx_alt_allDigits (a b : Matcher) :
  allDigits a -> allDigits b -> allDigits (rx_alt a b).
Proof.
  intros Ha Hb s g r H. apply in_app_or in H as [H|H]; eauto.
Qed.

Lemma rx_alt_consumes (a b : Matcher) : consumes a -> consumes b -> consumes (rx_alt a b).
Proof.
  intros Ha Hb s g r H. apply in_app_or in H as [H|H]; eauto.
Qed.

Lemma rx_opt_allDigits (a : Matcher) : allDigits a -> allDigits (rx_opt a).
Proof.
  intros Ha s g r H. apply in_app_or in H as [H|[H|[]]]; [eauto|].
  injection H as <- <-. reflexivity.
Qed.

Lemma isDigit_of_range (lo hi c : N) :
  48 <= lo -> hi <= 57 -> (lo <=? c) && (c <=? hi) = true -> isDigit c = true.
Proof.
  intros Hlo Hhi H. apply andb_true_iff in H as [H1 H2].
  apply N.leb_le in H1, H2. unfold isDigit.
  apply andb_true_iff. split; apply N.leb_le; lia.
Qed.

Lemma hourGroup_digits : allDigits hourGroup /\ consumes hourGroup.
Proof.
  assert (H01 : forall c, in01 c = true -> isDigit c = true).
  { intros c H. unfold in01 in H. apply orb_true_iff in H as [H|H];
      apply N.eqb_eq in H; subst; reflexivity. }
  assert (H2 : forall c, (50 =? c) = true -> isDigit c = true).
  { intros c H. apply N.eqb_eq in H. subst. reflexivity. }
  assert (H03 : forall c, in03 c = true -> isDigit c = true).
  { intros c. apply isDigit_of_range; lia. }
  unfold hourGroup, rx_char. split.
  - apply rx_alt_allDigits; apply rx_seq_allDigits;
      auto using rx_opt_allDigits, rx_class_allDigits.
  - apply rx_alt_consumes; apply rx_seq_consumes; apply rx_class_consumes.
Qed.

Lemma minuteGroup_digits : allDigits minuteGroup /\ consumes minuteGroup.
Proof.
  unfold minuteGroup. split.
  - apply rx_seq_allDigits; apply rx_class_allDigits; [|auto].
    intro c. apply isDigit_of_range; lia.
  - apply rx_seq_consumes, rx_class_consumes.
Qed.

(** The two groups of a match are non-empty strings of ASCII digits, on
    which [Number] is the decimal reading. *)
Lemma timeRegex_exec_digits (t g1 g2 : jsstring) :
  timeRegex_exec t = Some (g1, g2) ->
  (g1 <> [] /\ forallb isDigit g1 = true) /\ (g2 <> [] /\ forallb isDigit g2 = true).
Proof.
  unfold timeRegex_exec. intro H.
  assert (Hin : In (g1, g2)
                  (flat_map (fun '(g1, r1) =>
                     flat_map (fun '(_, r2) =>
                       flat_map (fun '(g2, r3) =>
                         match r3 with
                         | [] => [(g1, g2)]
                         | _ :: _ => []
                         end) (minuteGroup r2)) (rx_char 58 r1)) (hourGroup t))).
  { destruct (flat_map _ (hourGroup t)) as [|x l]; [discriminate|].
    injection H as ->. now left. }
  apply in_flat_map in Hin as ([h r1] & Hh & Hin).
  apply in_flat_map in Hin as ([c r2] & _ & Hin).
  apply in_flat_map in Hin as ([m r3] & Hm & Hin).
  destruct r3; [|contradiction]. destruct Hin as [Heq|[]]. injection Heq as <- <-.
  destruct hourGroup_digits as [Hd Hc]. destruct minuteGroup_digits as [Hd' Hc'].
  repeat split; eauto.
Qed.

Lemma jsstring_eqb_eq (a b : jsstring) : jsstring_eqb a b = true <-> a = b.
Proof.
  revert b; induction a as [|x a IH]; intros [|y b]; simpl; split; intro H;
    try reflexivity; try discriminate.
  - apply andb_true_iff in H as [Hxy Hab].
    apply N.eqb_eq in Hxy. apply IH in Hab. now subst.
  - injection H as -> ->. rewrite N.eqb_refl. now apply IH.
Qed.

Lemma jsstring_eqb_refl (a : jsstring) : jsstring_eqb a a = true.
Proof. now apply jsstring_eqb_eq. Qed.

(** A boolean property checked on [0 .. n-1] holds of every integer in
    that range. *)
Lemma forallb_below (P : Z -> bool) (n : nat) :
  forallb P (map Z.of_nat (seq 0 n)) = true ->
  forall z, (0 <= z < Z.of_nat n)%Z -> P z = true.
Proof.
  intros Hall z Hz.
  rewrite forallb_forall in Hall. apply Hall.
  apply in_map_iff. exists (Z.to_nat z). split; [lia|].
  apply in_seq. lia.
Qed.

Lemma roundtrip_check_all :
  forallb (fun h => forallb (roundtrip_check h) (map Z.of_nat (seq 0 60)))
          (map Z.of_nat (seq 0 24)) = true.
Proof. vm_compute. reflexivity. Qed.

(** C2. For every hour in 0..23 and minute in 0..59, [formatTime] renders
    the five units of the zero-padded text [HH:MM], and [parseTime] of
    that text succeeds with exactly that hour and minute. *)
Theorem parseTime_formatTime_roundtrip (h m : Z) :
  (0 <= h <= 23)%Z -> (0 <= m <= 59)%Z ->
  formatTime h m = clockText h m
  /\ parseTime (formatTime h m) = Some (ParsedTime.mk h m).
Proof.
  intros Hh Hm.
  assert (Hc : roundtrip_check h m = true).
  { apply (forallb_below (roundtrip_check h) 60); [|lia].
    apply (forallb_below
             (fun h => forallb (roundtrip_check h) (map Z.of_nat (seq 0 60))) 24);
      [exact roundtrip_check_all | lia]. }
  unfold roundtrip_check in Hc.
  apply andb_true_iff in Hc as [Hf Hp].
  apply jsstring_eqb_eq in Hf. split; [exact Hf|].
  destruct (parseTime (formatTime h m)) as [[h' m']|]; [|discriminate].
  simpl in Hp. apply andb_true_iff in Hp as [H1 H2].
  apply Z.eqb_eq in H1, H2. now subst.
Qed.

Lemma parseTime_formatTime_roundtrip_witness :
  formatTime 18 30 = js "18:30"
  /\ parseTime (formatTime 18 30) = Some (ParsedTime.mk 18 30).
Proof. apply (parseTime_formatTime_roundtrip 18 30); lia. Defined.

(** C3, as the claim states it, fails: a text with blanks around a clock
    time is not of the shape [H:MM] or [HH:MM], yet [parseTime] accepts
    it, because it trims its argument first. *)
Lemma parseTime_accepts_surrounding_blanks :
  spec_timeText (js " 18:30 ") = None
  /\ parseTime (js " 18:30 ") = Some (ParsedTime.mk 18 30).
Proof. split; reflexivity. Qed.

(** C3, amended. [parseTime] is a total function (it never raises) whose
    result is fixed by the trimmed argument: it succeeds exactly when the
    argument, with leading and trailing white space removed, is a 24-hour
    [H:MM] or [HH:MM] text (hour 0-23, optional leading zero, minute
    00-59), and then returns the hour and minute read; every other
    argument gives [None], among them "24:00", "12:60", "1830", "" and
    "9:5". *)
Theorem parseTime_accepts_trimmed_clock_text :
  (forall raw, parseTime raw = spec_timeText (trim raw))
  /\ parseTime (js "24:00") = None
  /\ parseTime (js "12:60") = None
  /\ parseTime (js "1830") = None
  /\ parseTime (js "") = None
  /\ parseTime (js "9:5") = None.
Proof.
  split; [|repeat split; reflexivity].
  intro raw. unfold parseTime. apply timeRegex_refines_spec.
Qed.

(** ** The unlock sentence *)

(** C1. While an alarm for the meal name [N] is active, the two modal
    actions are rendered exactly when the typed text, trimmed and then
    lowercased, equals "my name is sarah and i will use the " followed by
    the lowercased [N] and " today"; nothing else enters the test, and
    this holds whatever the lower-casing function does to [N] and to the
    text.  With ASCII text lowercased as the built-in does it, for "Tuna
    Casserole" the capitalised sentence passes (also with blanks around
    it), the sentence with a final full stop or with a doubled blank
    inside does not. *)
Theorem alarm_actions_need_exact_sentence :
  (forall w a,
      activeAlarm w = Some a ->
      (alarmActionsShown w = true <->
       toLowerCase (trim (alarmSentence w))
       = js "my name is sarah and i will use the "
            ++ toLowerCase (ActiveAlarm.mealName a) ++ js " today"))
  /\ (asciiLowerCasing toLowerCase ->
      requiredSentence (Some tunaCasserole)
      = js "my name is sarah and i will use the tuna casserole today"
      /\ canAcknowledge (js "My Name Is Sarah And I Will Use The Tuna Casserole Today")
                        (requiredSentence (Some tunaCasserole)) = true
      /\ canAcknowledge (js "  My Name Is Sarah And I Will Use The Tuna Casserole Today ")
                        (requiredSentence (Some tunaCasserole)) = true
      /\ canAcknowledge (js "My Name Is Sarah And I Will Use The Tuna Casserole Today.")
                        (requiredSentence (Some tunaCasserole)) = false
      /\ canAcknowledge (js "My Name Is Sarah And I Will Use The Tuna  Casserole Today")
                        (requiredSentence (Some tunaCasserole)) = false
      /\ canAcknowledge (js "my name is sarah and i will use the tuna today")
                        (requiredSentence (Some tunaCasserole)) = false).
Proof.
  split.
  - intros w a Ha.
    unfold alarmActionsShown, modalVisible, canAcknowledge, requiredSentence.
    rewrite Ha. simpl andb. apply jsstring_eqb_eq.
  - intro Hascii.
    assert (Hreq : requiredSentence (Some tunaCasserole)
                   = js "my name is sarah and i will use the tuna casserole today").
    { unfold requiredSentence, tunaCasserole. cbn [ActiveAlarm.mealName].
      rewrite (Hascii (js "Tuna Casserole")) by (vm_compute; reflexivity).
      vm_compute. reflexivity. }
    split; [exact Hreq|]. rewrite Hreq. unfold canAcknowledge.
    repeat split;
      match goal with
      | |- jsstring_eqb (toLowerCase ?t) _ = _ =>
          rewrite (Hascii t) by (vm_compute; reflexivity)
      end;
      vm_compute; reflexivity.
Qed.

(** ** What a commit leaves alone *)

Lemma runEffects_activeAlarm (w : World) : activeAlarm (runEffects w) = activeAlarm w.
Proof. unfold runEffects. world_cases w; reflexivity. Qed.

Lemma runEffects_screen (w : World) : screen (runEffects w) = screen w.
Proof. unfold runEffects. world_cases w; reflexivity. Qed.

Lemma runEffects_meals (w : World) : meals (runEffects w) = meals w.
Proof. unfold runEffects. world_cases w; reflexivity. Qed.

(** ** Notification events *)

(** C7. The listener for delivered notifications and the listener for
    tapped notifications are the same function of the notification and
    the state, also after the commit; when the payload carries a mealId
    and a mealName (both non-empty), the result is the active session
    with exactly these two values, on the tool screen. *)
Theorem delivered_and_tapped_agree (n : Notification) (w : World) :
  onNotificationReceived n w = onNotificationResponseReceived {| notification := n |} w
  /\ step (NotificationReceived n) w
     = step (NotificationResponseReceived {| notification := n |}) w
  /\ forall i nm,
      data (content (request n)) = NotificationData.mk (Some i) (Some nm) ->
      i <> [] -> nm <> [] ->
      let w' := onNotificationReceived n w in
      activeAlarm w' = Some (ActiveAlarm.mk i nm)
      /\ screen w' = foodWastePreventer
      /\ activeAlarm (step (NotificationReceived n) w) = Some (ActiveAlarm.mk i nm)
      /\ screen (step (NotificationReceived n) w) = foodWastePreventer.
Proof.
  split; [reflexivity|]. split; [reflexivity|].
  intros i nm Hd Hi Hnm. unfold step, handle.
  rewrite runEffects_activeAlarm, runEffects_screen.
  unfold onNotificationReceived. rewrite Hd.
  destruct i as [|i0 i]; [contradiction|]. destruct nm as [|n0 nm]; [contradiction|].
  cbn [NotificationData.mealId NotificationData.mealName truthy truthyString negb orb valueOf].
  destruct w as [sc ms mn dt [a|] asn ref mc ac vc sch st iv nt tr];
    cbn; repeat split; reflexivity.
Qed.

Lemma delivered_and_tapped_agree_witness :
  let n := notificationOf (NotificationData.mk (Some (js "1-abc")) (Some (js "Tuna"))) in
  let w' := onNotificationReceived n (mount (initialWorld [] None)) in
  activeAlarm w' = Some (ActiveAlarm.mk (js "1-abc") (js "Tuna"))
  /\ screen w' = foodWastePreventer.
Proof.
  intros n w'.
  destruct (proj2 (proj2 (delivered_and_tapped_agree n (mount (initialWorld [] None))))
              (js "1-abc") (js "Tuna") eq_refl) as (H1 & H2 & _).
  - discriminate.
  - discriminate.
  - split; [exact H1 | exact H2].
Defined.

(** C10. A delivered notification, a tapped notification and the
    cold-start check each leave the state as it is when the payload lacks
    mealId or mealName (absent, or the empty string): no session, no
    change of screen, no change of the meal list.  The cold-start check
    only records its query to the notification service. *)
Theorem missing_payload_changes_nothing (d : NotificationData.t) (w : World) :
  truthy (NotificationData.mealId d) = false
  \/ truthy (NotificationData.mealName d) = false ->
  onNotificationReceived (notificationOf d) w = w
  /\ onNotificationResponseReceived (responseOf d) w = w
  /\ setupColdStart (Some (responseOf d)) w = emit GetLastNotificationResponse w
  /\ activeAlarm (setupColdStart (Some (responseOf d)) w) = activeAlarm w
  /\ screen (setupColdStart (Some (responseOf d)) w) = screen w
  /\ meals (setupColdStart (Some (responseOf d)) w) = meals w
  /\ setupColdStart None w = emit GetLastNotificationResponse w.
Proof.
  intros H.
  unfold onNotificationReceived, onNotificationResponseReceived, setupColdStart,
    responseOf, notificationOf; cbn [data content request notification].
  destruct H as [H|H]; rewrite H; cbn [negb orb andb];
    rewrite ?orb_true_r, ?andb_false_r; repeat split; reflexivity.
Qed.

Lemma missing_payload_changes_nothing_witness :
  let d := NotificationData.mk None (Some (js "Tuna")) in
  let w := mount (initialWorld [] None) in
  onNotificationReceived (notificationOf d) w = w
  /\ onNotificationResponseReceived (responseOf d) w = w.
Proof.
  intros d w.
  destruct (missing_payload_changes_nothing d w) as (H1 & H2 & _).
  - left. reflexivity.
  - split; [exact H1 | exact H2].
Defined.

(** ** Adding a meal *)

Lemma runEffects_settled (w : World) : settled w -> runEffects w = w.
Proof.
  intros [Hm Ha]. unfold runEffects. rewrite Hm, Ha. reflexivity.
Qed.

(** C4. Whatever the state, when the typed name trims to a non-empty
    text and the typed time parses, [addMeal] registers exactly one new
    trigger with the notification service, for the parsed hour and
    minute and tagged with the generated id and the trimmed name, and
    puts exactly one new entry, with that id, the trimmed name and the
    parsed hour and minute, in front of the list, whose earlier entries
    stay as they were, in their order; the commit then stores the new
    list.  The entry goes in front of the list as it is when the service
    answers, whatever happened in between. *)
Theorem addMeal_registers_one_trigger_and_prepends
    (now : Z) (random nid : jsstring) (now' : Z) (w : World) (parsedTime : ParsedTime.t) :
  trim (mealName w) <> [] ->
  parseTime (dailyTime w) = Some parsedTime ->
  let id := toString now ++ js "-" ++ random in
  let entry :=
    MealEntry.mk id (trim (mealName w)) (ParsedTime.hour parsedTime)
                 (ParsedTime.minute parsedTime) nid now' in
  let w' := addMeal now random nid now' w in
  meals w' = entry :: meals w
  /\ (exists input,
         scheduled w' = (nid, input) :: scheduled w
         /\ trace w' = ScheduleNotification input nid :: trace w
         /\ ScheduleInput.data input
            = NotificationData.mk (Some id) (Some (trim (mealName w)))
         /\ ScheduleInput.hour input = ParsedTime.hour parsedTime
         /\ ScheduleInput.minute input = ParsedTime.minute parsedTime)
  /\ storage (runEffects w') = Some (entry :: meals w)
  /\ forall later,
      meals (addMeal_finish id (trim (mealName w)) parsedTime nid now' later)
      = entry :: meals later.
Proof.
  intros Hname Htime id entry w'.
  assert (Hw' : w' = addMeal_finish id (trim (mealName w)) parsedTime nid now'
                       (scheduleNotificationAsync
                          (ScheduleInput.mk
                             (js "Food Waste Preventer")
                             (js "Use your " ++ trim (mealName w) ++ js " today.")
                             (js "default")
                             (NotificationData.mk (Some id) (Some (trim (mealName w))))
                             (ParsedTime.hour parsedTime)
                             (ParsedTime.minute parsedTime)
                             (js "food-reminders")) nid w)).
  { subst w'. unfold addMeal, addMeal_start. rewrite Htime.
    destruct (trim (mealName w)) as [|c r] eqn:Ht; [contradiction|]. reflexivity. }
  split; [rewrite Hw'; reflexivity|].
  split.
  { eexists. rewrite Hw'. cbn. repeat split; reflexivity. }
  split; [|reflexivity].
  rewrite Hw'. destruct w as [sc ms mn dt aa asn ref mc ac vc sch st iv nt tr].
  unfold runEffects. destruct aa, ref, ac, vc; reflexivity.
Qed.

Lemma addMeal_registers_one_trigger_and_prepends_witness :
  meals (addMeal 1700000000000 (js "k3x9qa") (js "trigger-1") 1700000000007 tunaForm)
  = [MealEntry.mk (js "1700000000000-k3x9qa") (js "Tuna") 18 30
                  (js "trigger-1") 1700000000007].
Proof.
  apply (addMeal_registers_one_trigger_and_prepends
           1700000000000 (js "k3x9qa") (js "trigger-1") 1700000000007
           tunaForm (ParsedTime.mk 18 30)).
  - discriminate.
  - reflexivity.
Defined.

(** C5. Whatever the state, when the typed name trims to the empty
    string or the typed time does not parse, [addMeal] shows one advisory
    and does nothing else: the meal list, the registered triggers and the
    stored list are as before, and from a settled state the commit that
    follows writes nothing. *)
Theorem addMeal_rejects_without_change
    (now : Z) (random nid : jsstring) (now' : Z) (w : World) :
  settled w ->
  trim (mealName w) = [] \/ parseTime (dailyTime w) = None ->
  exists title message,
    addMeal now random nid now' w = Alert_alert title message w
    /\ step (PressAdd now random nid) w = Alert_alert title message w
    /\ meals (addMeal now random nid now' w) = meals w
    /\ scheduled (addMeal now random nid now' w) = scheduled w
    /\ storage (step (PressAdd now random nid) w) = storage w
    /\ trace (step (PressAdd now random nid) w) = AlertShown title message :: trace w.
Proof.
  intros Hs Hbad.
  assert (Hstart : exists title message,
             addMeal_start (mealName w) (dailyTime w) now random
             = AddRejected title message).
  { unfold addMeal_start. destruct Hbad as [Hn|Ht].
    - rewrite Hn. simpl. eauto.
    - rewrite Ht. destruct (negb (truthyString (trim (mealName w)))); eauto. }
  destruct Hstart as (title & message & Hstart).
  exists title, message.
  assert (Hadd : addMeal now random nid now' w = Alert_alert title message w)
    by (unfold addMeal; rewrite Hstart; reflexivity).
  assert (Hstep : step (PressAdd now random nid) w = Alert_alert title message w).
  { unfold step, handle, addMeal_request. rewrite Hstart.
    apply runEffects_settled. exact Hs. }
  rewrite Hadd, Hstep. repeat split; reflexivity.
Qed.

Lemma addMeal_rejects_without_change_witness :
  let w := with_mealName (js "   ") (mount (initialWorld [] None)) in
  exists title message,
    addMeal 1700000000000 (js "k3x9qa") (js "trigger-1") 1700000000007 w
    = Alert_alert title message w.
Proof.
  intro w.
  destruct (addMeal_rejects_without_change
              1700000000000 (js "k3x9qa") (js "trigger-1") 1700000000007 w)
    as (title & message & H & _).
  - split; reflexivity.
  - left. reflexivity.
  - exists title, message. exact H.
Defined.

(** ** The vibration timer *)

(** Handlers never touch the timer; they change the session only
    through [setActiveAlarm], which flags the vibration effect, and the
    confirmation text only through its input field. *)
Lemma handle_frame (e : Event) (w : World) :
  vibrationIntervalRef (handle e w) = vibrationIntervalRef w
  /\ intervals (handle e w) = intervals w
  /\ vibrationCleanup (handle e w) = vibrationCleanup w
  /\ timersStarted (trace (handle e w)) = timersStarted (trace w)
  /\ (activeAlarmChanged (handle e w) = false ->
      activeAlarmChanged w = false /\ activeAlarm (handle e w) = activeAlarm w)
  /\ ((forall text, e <> ChangeAlarmSentence text) ->
      alarmSentence (handle e w) = alarmSentence w).
Proof.
  destruct w as [sc ms mn dt aa asn ref mc ac vc sch st iv nt tr].
  destruct e; cbn [handle];
    unfold setupPermissions, setupLoad, setupColdStart, onNotificationReceived,
      onNotificationResponseReceived, addMeal_request, cancelMealAlarm_request,
      pressDismiss, addMeal_finish, cancelMealAlarm_finish, setActiveAlarm, setMeals,
      setScreen, setMealName, setDailyTime, setAlarmSentence, Alert_alert,
      AsyncStorage_getItem, scheduleNotificationAsync, cancelScheduledNotificationAsync;
    cbn -[truthy find filter addMeal_start jsstring_eqb js];
    repeat (break_match; cbn -[truthy find filter addMeal_start jsstring_eqb js]);
    repeat split; intros; try reflexivity; try discriminate; try congruence.
  exfalso. eapply H. reflexivity.
Qed.

(** What a commit does to the timer, from tidy bookkeeping: when the
    session changed, it ends the old pulse and starts one timer exactly
    if a session is active now, emptying the confirmation text if not;
    otherwise it leaves timer and text alone. *)
Lemma runEffects_pulse (w : World) :
  timersTidy w ->
  settled (runEffects w)
  /\ timersTidy (runEffects w)
  /\ if activeAlarmChanged w then
       match activeAlarm w with
       | Some _ =>
           vibrationIntervalRef (runEffects w) <> None
           /\ timersStarted (trace (runEffects w)) = S (timersStarted (trace w))
           /\ alarmSentence (runEffects w) = alarmSentence w
       | None =>
           vibrationIntervalRef (runEffects w) = None
           /\ timersStarted (trace (runEffects w)) = timersStarted (trace w)
           /\ alarmSentence (runEffects w) = []
       end
     else
       vibrationIntervalRef (runEffects w) = vibrationIntervalRef w
       /\ timersStarted (trace (runEffects w)) = timersStarted (trace w)
       /\ alarmSentence (runEffects w) = alarmSentence w.
Proof.
  unfold timersTidy, settled, runEffects.
  destruct w as [sc ms mn dt aa asn ref mc ac vc sch st iv nt tr]; cbn.
  destruct ref as [t|]; intros [Hiv Hvc]; subst iv vc;
    destruct mc, ac, aa; cbn; rewrite ?Nat.eqb_refl; cbn;
    repeat split; try reflexivity; try discriminate.
Qed.

Lemma mount_pulseInvariant triggers stored :
  pulseInvariant (mount (initialWorld triggers stored)).
Proof.
  unfold pulseInvariant, settled, timersTidy. cbn. repeat split; reflexivity.
Qed.

Lemma step_pulseInvariant (e : Event) (w : World) :
  pulseInvariant w -> enabled e w = true -> pulseInvariant (step e w).
Proof.
  intros (Hs & Ht & Ha) He.
  destruct (handle_frame e w) as (Href & Hiv & Hvc & _ & Hac & Htext).
  assert (Htidy : timersTidy (handle e w)).
  { unfold timersTidy. rewrite Href, Hiv, Hvc. exact Ht. }
  destruct (runEffects_pulse (handle e w) Htidy) as (Hs' & Ht' & Hp).
  unfold step. split; [exact Hs'|]. split; [exact Ht'|].
  rewrite runEffects_activeAlarm.
  destruct (activeAlarmChanged (handle e w)) eqn:Hch.
  - destruct (activeAlarm (handle e w)); [tauto|]. destruct Hp as (H1 & _ & H3). tauto.
  - destruct Hp as (H1 & _ & H3). destruct (Hac eq_refl) as [_ Hsame].
    rewrite Hsame, H1, Href, H3.
    destruct (activeAlarm w) eqn:Haw; [exact Ha|].
    split; [tauto|]. rewrite Htext; [tauto|].
    intros text ->. unfold enabled, modalVisible in He. rewrite Haw in He. discriminate.
Qed.

Lemma reachable_pulseInvariant (w : World) : reachable w -> pulseInvariant w.
Proof.
  induction 1 as [triggers stored | w e _ IH He].
  - apply mount_pulseInvariant.
  - now apply step_pulseInvariant.
Qed.

Lemma run_reachable (es : list Event) (w : World) :
  reachable w -> allEnabled es w = true -> reachable (run es w).
Proof.
  revert w. induction es as [|e es IH]; intros w Hw Hall; simpl in *.
  - exact Hw.
  - apply andb_true_iff in Hall as [He Hes].
    apply IH; [apply reachable_step; assumption | exact Hes].
Qed.

Lemma unmount_intervals (w : World) : pulseInvariant w -> intervals (unmount w) = [].
Proof.
  intros (_ & Ht & _). unfold timersTidy in Ht. unfold unmount, vibrationEffect_cleanup.
  destruct w as [sc ms mn dt aa asn ref mc ac vc sch st iv nt tr]; cbn in *.
  destruct ref as [t|]; destruct Ht as [-> ->]; cbn; rewrite ?Nat.eqb_refl; reflexivity.
Qed.

(** A delivered or tapped notification with a full payload sets the
    session it names and flags the vibration effect, in any state. *)
Lemma payload_event_flags_effect (e : Event) (n : Notification) (i nm : jsstring)
    (w : World) :
  e = NotificationReceived n \/ e = NotificationResponseReceived {| notification := n |} ->
  data (content (request n)) = NotificationData.mk (Some i) (Some nm) ->
  i <> [] -> nm <> [] ->
  enabled e w = true
  /\ activeAlarmChanged (handle e w) = true
  /\ activeAlarm (handle e w) = Some (ActiveAlarm.mk i nm)
  /\ forall text, e <> ChangeAlarmSentence text.
Proof.
  intros He Hd Hi Hnm.
  assert (Hh : handle e w = onNotificationReceived n w)
    by (destruct He as [-> | ->]; reflexivity).
  assert (Hen : enabled e w = true) by (destruct He as [-> | ->]; reflexivity).
  assert (Hne : forall text, e <> ChangeAlarmSentence text)
    by (intro text; destruct He as [-> | ->]; discriminate).
  rewrite Hh. unfold onNotificationReceived. rewrite Hd.
  destruct i as [|i0 i]; [contradiction|]. destruct nm as [|n0 nm]; [contradiction|].
  cbn [NotificationData.mealId NotificationData.mealName truthy truthyString negb orb valueOf].
  destruct w as [sc ms mn dt [a|] asn ref mc ac vc sch st iv nt tr]; cbn;
    repeat split; assumption || reflexivity.
Qed.

(** C8, as the claim states it, fails: a second reminder delivered while
    a session is active enters a new session, for which the vibration
    effect runs again and starts a second timer, and the confirmation text
    typed so far is still there. *)
Lemma second_payload_restarts_timer_and_keeps_text :
  let w := typingWhileRinging in
  let w' := step (NotificationReceived (notificationOf soupPayload)) w in
  activeAlarm w = Some tunaCasserole
  /\ activeAlarm w' = Some (ActiveAlarm.mk (js "1700000000500-zz81ab") (js "Soup"))
  /\ alarmSentence w' = js "my name is"
  /\ timersStarted (trace w) = 1%nat
  /\ timersStarted (trace w') = 2%nat
  /\ intervals w' = [2%nat].
Proof. vm_compute. repeat split; reflexivity. Qed.

(** C8, amended. In every state the mounted component can reach: no
    timer is live and the confirmation text is empty while no session is
    active, and exactly one timer is live while one is.  An event that
    takes the session from idle to active starts exactly one timer and
    finds the confirmation text empty; an event that takes it from active
    to idle leaves no live timer and an empty confirmation text; an event
    that keeps it idle starts no timer.  An event that keeps it active
    leaves exactly one live timer: it starts one more timer (the old one
    cleared) exactly when its handler set a session, and unless it is
    typing it keeps the confirmation text; so a delivered or tapped
    notification with a full payload that arrives during a session
    replaces the session, starts one more timer and keeps the text typed
    so far.  Unmounting leaves no live timer. *)
Theorem vibration_timer_follows_session (w : World) :
  reachable w ->
  match activeAlarm w with
  | None => intervals w = [] /\ vibrationIntervalRef w = None /\ alarmSentence w = []
  | Some _ => exists t, intervals w = [t] /\ vibrationIntervalRef w = Some t
  end
  /\ (forall e, enabled e w = true ->
        let w' := step e w in
        (activeAlarm w = None -> activeAlarm w' <> None ->
           timersStarted (trace w') = S (timersStarted (trace w))
           /\ (exists t, intervals w' = [t] /\ vibrationIntervalRef w' = Some t)
           /\ alarmSentence w' = [])
        /\ (activeAlarm w <> None -> activeAlarm w' = None ->
              intervals w' = [] /\ vibrationIntervalRef w' = None
              /\ alarmSentence w' = [])
        /\ (activeAlarm w = None -> activeAlarm w' = None ->
              timersStarted (trace w') = timersStarted (trace w))
        /\ (activeAlarm w <> None -> activeAlarm w' <> None ->
              (exists t, intervals w' = [t] /\ vibrationIntervalRef w' = Some t)
              /\ timersStarted (trace w')
                 = (if activeAlarmChanged (handle e w)
                    then S (timersStarted (trace w))
                    else timersStarted (trace w))
              /\ ((forall text, e <> ChangeAlarmSentence text) ->
                  alarmSentence w' = alarmSentence w)))
  /\ (forall e n i nm,
        e = NotificationReceived n
        \/ e = NotificationResponseReceived {| notification := n |} ->
        activeAlarm w <> None ->
        data (content (request n)) = NotificationData.mk (Some i) (Some nm) ->
        i <> [] -> nm <> [] ->
        let w' := step e w in
        activeAlarm w' = Some (ActiveAlarm.mk i nm)
        /\ timersStarted (trace w') = S (timersStarted (trace w))
        /\ (exists t, intervals w' = [t] /\ vibrationIntervalRef w' = Some t)
        /\ alarmSentence w' = alarmSentence w)
  /\ intervals (unmount w) = [].
Proof.
  intro Hreach.
  assert (Hrest : forall v, pulseInvariant v ->
            match activeAlarm v with
            | None => intervals v = [] /\ vibrationIntervalRef v = None /\ alarmSentence v = []
            | Some _ => exists t, intervals v = [t] /\ vibrationIntervalRef v = Some t
            end).
  { intros v (_ & Ht & Ha). unfold timersTidy in Ht.
    destruct (activeAlarm v).
    - destruct (vibrationIntervalRef v) as [u|]; [|contradiction].
      exists u. tauto.
    - destruct Ha as [Hr Hs]. rewrite Hr in Ht. tauto. }
  pose proof (reachable_pulseInvariant w Hreach) as Hinv.
  assert (Hevents : forall e, enabled e w = true ->
            let w' := step e w in
            (activeAlarm w = None -> activeAlarm w' <> None ->
               timersStarted (trace w') = S (timersStarted (trace w))
               /\ (exists t, intervals w' = [t] /\ vibrationIntervalRef w' = Some t)
               /\ alarmSentence w' = [])
            /\ (activeAlarm w <> None -> activeAlarm w' = None ->
                  intervals w' = [] /\ vibrationIntervalRef w' = None
                  /\ alarmSentence w' = [])
            /\ (activeAlarm w = None -> activeAlarm w' = None ->
                  timersStarted (trace w') = timersStarted (trace w))
            /\ (activeAlarm w <> None -> activeAlarm w' <> None ->
                  (exists t, intervals w' = [t] /\ vibrationIntervalRef w' = Some t)
                  /\ timersStarted (trace w')
                     = (if activeAlarmChanged (handle e w)
                        then S (timersStarted (trace w))
                        else timersStarted (trace w))
                  /\ ((forall text, e <> ChangeAlarmSentence text) ->
                      alarmSentence w' = alarmSentence w))).
  { intros e He w'.
    pose proof (step_pulseInvariant e w Hinv He) as Hinv'.
    pose proof (Hrest _ Hinv') as Hrest'. fold w' in Hrest'.
    destruct (handle_frame e w) as (Href & Hiv & Hvc & Hcount & Hac & Htext).
    assert (Htidy : timersTidy (handle e w)).
    { destruct Hinv as (_ & Ht & _). unfold timersTidy. rewrite Href, Hiv, Hvc. exact Ht. }
    destruct (runEffects_pulse (handle e w) Htidy) as (_ & _ & Hp).
    assert (Haw' : activeAlarm w' = activeAlarm (handle e w))
      by apply runEffects_activeAlarm.
    destruct Hinv as ((_ & Hflag) & _ & Hidle).
    split; [|split; [|split]].
    - intros Hnone Hsome.
      destruct (activeAlarm w') as [a'|] eqn:Ha'; [|contradiction].
      destruct (activeAlarmChanged (handle e w)) eqn:Hch.
      + rewrite <- Haw' in Hp. destruct Hp as (_ & Hn & Hsent).
        fold (step e w) in Hn, Hsent. fold w' in Hn, Hsent.
        split; [rewrite Hn, Hcount; reflexivity|]. split; [exact Hrest'|].
        rewrite Hsent, Htext.
        * rewrite Hnone in Hidle. tauto.
        * intros text ->. unfold enabled, modalVisible in He. rewrite Hnone in He.
          discriminate.
      + destruct (Hac eq_refl) as [_ Hsame]. congruence.
    - intros _ Hnone. rewrite Hnone in Hrest'. exact Hrest'.
    - intros Hnone Hnone'.
      destruct (activeAlarmChanged (handle e w)) eqn:Hch.
      + rewrite <- Haw', Hnone' in Hp. destruct Hp as (_ & Hn & _).
        fold (step e w) in Hn. fold w' in Hn. rewrite Hn. exact Hcount.
      + destruct Hp as (_ & Hn & _).
        fold (step e w) in Hn. fold w' in Hn. rewrite Hn. exact Hcount.
    - intros _ Hsome.
      destruct (activeAlarm w') as [a'|] eqn:Ha'; [|contradiction].
      split; [exact Hrest'|].
      destruct (activeAlarmChanged (handle e w)) eqn:Hch.
      + rewrite <- Haw' in Hp. destruct Hp as (_ & Hn & Hsent).
        fold (step e w) in Hn, Hsent. fold w' in Hn, Hsent.
        split; [rewrite Hn, Hcount; reflexivity|].
        intro Hne. rewrite Hsent. apply Htext. exact Hne.
      + destruct Hp as (_ & Hn & Hsent).
        fold (step e w) in Hn, Hsent. fold w' in Hn, Hsent.
        split; [rewrite Hn; exact Hcount|].
        intro Hne. rewrite Hsent. apply Htext. exact Hne. }
  split; [apply Hrest; exact Hinv|].
  split; [exact Hevents|].
  split; [|apply unmount_intervals; exact Hinv].
  intros e n i nm He Hact Hd Hi Hnm w'.
  destruct (payload_event_flags_effect e n i nm w He Hd Hi Hnm)
    as (Hen & Hch & Hnew & Hne).
  assert (Haw' : activeAlarm w' = Some (ActiveAlarm.mk i nm)).
  { unfold w', step. rewrite runEffects_activeAlarm. exact Hnew. }
  destruct (Hevents e Hen) as (_ & _ & _ & Hkeep). fold w' in Hkeep.
  destruct Hkeep as (Hone & Hcount & Htext); [exact Hact | rewrite Haw'; discriminate |].
  rewrite Hch in Hcount.
  split; [exact Haw'|]. split; [exact Hcount|]. split; [exact Hone|].
  apply Htext. exact Hne.
Qed.

(** ** Cancelling from the alarm modal *)

Lemma jsstring_eqb_neq (a b : jsstring) : jsstring_eqb a b = false <-> a <> b.
Proof.
  split.
  - intros H E. apply jsstring_eqb_eq in E. congruence.
  - intro H. destruct (jsstring_eqb a b) eqn:E; [|reflexivity].
    apply jsstring_eqb_eq in E. contradiction.
Qed.

Lemma find_absent {A} (f : A -> bool) (l : list A) :
  (forall x, In x l -> f x = false) -> find f l = None.
Proof.
  induction l as [|x l IH]; simpl; [reflexivity|].
  intro H. rewrite (H x (or_introl eq_refl)). apply IH. auto.
Qed.

(** When the list holds a meal with the session's id, "Cancel This
    Alarm", its await resolving before any other event, ends the session,
    stops the timer, empties the confirmation text, drops every entry
    with that id, cancels the trigger of the entry found and stores the
    shortened list; when it holds none, nothing changes. *)
Lemma cancel_this_alarm_listed (w : World) (a : ActiveAlarm.t) :
  reachable w ->
  activeAlarm w = Some a ->
  alarmActionsShown w = true ->
  let w' := runEffects (pressCancelThisAlarm w) in
  match find (fun meal => jsstring_eqb (MealEntry.id meal) (ActiveAlarm.mealId a))
             (meals w) with
  | Some target =>
      activeAlarm w' = None
      /\ intervals w' = []
      /\ vibrationIntervalRef w' = None
      /\ alarmSentence w' = []
      /\ meals w'
         = filter (fun meal => negb (jsstring_eqb (MealEntry.id meal) (ActiveAlarm.mealId a)))
                  (meals w)
      /\ scheduled w'
         = filter (fun t => negb (jsstring_eqb (fst t) (MealEntry.notificationId target)))
                  (scheduled w)
      /\ storage w' = Some (meals w')
  | None => w' = w
  end.
Proof.
  intros Hreach Ha _ w'. subst w'.
  destruct (reachable_pulseInvariant w Hreach) as (Hs & Ht & Hact).
  unfold pressCancelThisAlarm, cancelMealAlarm. rewrite Ha.
  destruct (find _ (meals w)) as [target|] eqn:Hfind.
  - unfold timersTidy in Ht. rewrite Ha in Hact.
    destruct w as [sc ms mn dt aa asn ref mc ac vc sch st iv nt tr]; cbn in *.
    subst aa. destruct ref as [t|]; [|contradiction]. destruct Ht as [-> ->].
    unfold cancelMealAlarm_finish, runEffects; cbn.
    rewrite jsstring_eqb_refl. cbn. rewrite Nat.eqb_refl.
    repeat split; reflexivity.
  - apply runEffects_settled. exact Hs.
Qed.

(** C6 does not hold of the code.  Where the session is active, the
    sentence is matched and no meal in the list has the session's id,
    "Cancel This Alarm" is rendered and does nothing: [cancelMealAlarm]
    returns at its guard before it reaches [setActiveAlarm(null)], so the
    session stays active and its timer keeps running, while "Dismiss For
    Now" next to it does end the session. *)
Theorem cancel_this_alarm_dead_for_unlisted_meal (w : World) (a : ActiveAlarm.t) :
  reachable w ->
  activeAlarm w = Some a ->
  alarmActionsShown w = true ->
  (forall meal, In meal (meals w) -> MealEntry.id meal <> ActiveAlarm.mealId a) ->
  enabled PressCancelThisAlarm w = true
  /\ pressCancelThisAlarm w = w
  /\ step PressCancelThisAlarm w = w
  /\ activeAlarm (step PressCancelThisAlarm w) = Some a
  /\ (exists t, intervals (step PressCancelThisAlarm w) = [t])
  /\ activeAlarm (step PressDismiss w) = None.
Proof.
  intros Hreach Ha Hshown Hunlisted.
  pose proof (reachable_pulseInvariant w Hreach) as Hinv.
  assert (Hfind : find (fun meal => jsstring_eqb (MealEntry.id meal) (ActiveAlarm.mealId a))
                       (meals w) = None).
  { apply find_absent. intros meal Hin. apply jsstring_eqb_neq. auto. }
  assert (Hpress : pressCancelThisAlarm w = w).
  { unfold pressCancelThisAlarm, cancelMealAlarm. rewrite Ha, Hfind. reflexivity. }
  assert (Hstep : step PressCancelThisAlarm w = w).
  { unfold step, handle, cancelMealAlarm_request. rewrite Ha, Hfind.
    apply runEffects_settled. exact (proj1 Hinv). }
  split; [exact Hshown|]. split; [exact Hpress|]. split; [exact Hstep|].
  rewrite Hstep. split; [exact Ha|]. split.
  - destruct Hinv as (_ & Ht & Hact). unfold timersTidy in Ht. rewrite Ha in Hact.
    destruct (vibrationIntervalRef w) as [t|]; [|contradiction].
    exists t. tauto.
  - unfold step. rewrite runEffects_activeAlarm. unfold handle, pressDismiss, setActiveAlarm.
    rewrite Ha. reflexivity.
Qed.

(** ** Persistence *)

(** C9 does not hold of the code: mounting runs the persist effect once
    before anything was loaded or changed, so the empty initial list is
    written over whatever an earlier run had stored, and the load that
    follows reads that empty list back. *)
Theorem mount_overwrites_saved_meals
    (triggers : list (jsstring * ScheduleInput.t)) (saved : list MealEntry.t) :
  let w := mount (initialWorld triggers (Some saved)) in
  trace w = [VibrationCancel; AddNotificationResponseReceivedListener;
             AddNotificationReceivedListener; SetItem STORAGE_KEY []; GetPermissions]
  /\ storage w = Some []
  /\ forall granted requestedGranted lastResponse,
      let w' := run [SetupPermissions granted requestedGranted; SetupLoad;
                     SetupColdStart lastResponse] w in
      meals w' = [] /\ storage w' = Some [].
Proof.
  cbn zeta. split; [vm_compute; reflexivity|]. split; [vm_compute; reflexivity|].
  intros granted requestedGranted lastResponse.
  destruct granted, requestedGranted;
    (destruct lastResponse as [[[[[[mi mn]]]]]|];
     [destruct mi as [[|c1 s1]|], mn as [[|c2 s2]|] | ]);
    vm_compute; split; reflexivity.
Qed.

(** * Further properties of the code *)

(** ** Trimming *)

Lemma trimStart_app (x z : jsstring) :
  trimStart (x ++ z) = match trimStart x with
                       | [] => trimStart z
                       | _ :: _ => trimStart x ++ z
                       end.
Proof.
  induction x as [|c x IH]; simpl; [reflexivity|].
  destruct (isWhiteSpace c); [exact IH | reflexivity].
Qed.

Lemma trimStart_allWhiteSpace (s : jsstring) : allWhiteSpace s = true -> trimStart s = [].
Proof.
  induction s as [|c s IH]; simpl; [reflexivity|].
  intro H. apply andb_true_iff in H as [Hc Hs]. rewrite Hc. auto.
Qed.

Lemma trimStart_head (s : jsstring) c r : trimStart s = c :: r -> isWhiteSpace c = false.
Proof.
  induction s as [|d s IH]; simpl; [discriminate|].
  destruct (isWhiteSpace d) eqn:Hd; [exact IH|].
  intro H. injection H as <- _. exact Hd.
Qed.

Lemma trimStart_fixed (s : jsstring) :
  match s with [] => True | c :: _ => isWhiteSpace c = false end -> trimStart s = s.
Proof. destruct s as [|c s]; simpl; [reflexivity|]. now intros ->. Qed.

Lemma trimStart_idem (s : jsstring) : trimStart (trimStart s) = trimStart s.
Proof.
  destruct (trimStart s) as [|c r] eqn:H; [reflexivity|].
  apply trimStart_fixed. exact (trimStart_head s c r H).
Qed.

Lemma allWhiteSpace_rev (s : jsstring) : allWhiteSpace (rev s) = allWhiteSpace s.
Proof.
  unfold allWhiteSpace. induction s as [|c s IH]; simpl; [reflexivity|].
  rewrite forallb_app, IH. simpl. rewrite andb_true_r. apply andb_comm.
Qed.

Lemma trimEnd_pad (x ws : jsstring) :
  allWhiteSpace ws = true -> trimEnd (x ++ ws) = trimEnd x.
Proof.
  intro H. unfold trimEnd. rewrite rev_app_distr, trimStart_app.
  rewrite trimStart_allWhiteSpace by (now rewrite allWhiteSpace_rev). reflexivity.
Qed.

Lemma trimStart_pad (ws x : jsstring) :
  allWhiteSpace ws = true -> trimStart (ws ++ x) = trimStart x.
Proof.
  intro H. rewrite trimStart_app, trimStart_allWhiteSpace by exact H. reflexivity.
Qed.

Lemma trim_pad_end (x ws : jsstring) :
  allWhiteSpace ws = true -> trim (x ++ ws) = trim x.
Proof.
  intro H. unfold trim. rewrite trimStart_app.
  destruct (trimStart x) as [|c r] eqn:Hx.
  - rewrite trimStart_allWhiteSpace by exact H. reflexivity.
  - apply trimEnd_pad. exact H.
Qed.

Lemma trim_pad (ws1 s ws2 : jsstring) :
  allWhiteSpace ws1 = true -> allWhiteSpace ws2 = true ->
  trim (ws1 ++ s ++ ws2) = trim s.
Proof.
  intros H1 H2. rewrite app_assoc, trim_pad_end by exact H2.
  unfold trim. now rewrite trimStart_pad.
Qed.

(** [trimEnd] keeps a head that is not white space. *)
Lemma trimEnd_cons (c : N) (r : jsstring) :
  isWhiteSpace c = false -> exists r', trimEnd (c :: r) = c :: r'.
Proof.
  intro Hc. unfold trimEnd. simpl. rewrite trimStart_app.
  destruct (trimStart (rev r)) as [|d y] eqn:Hy.
  - simpl. rewrite Hc. exists []. reflexivity.
  - rewrite rev_app_distr. simpl. eexists. reflexivity.
Qed.

Lemma trim_fixed (s : jsstring) :
  trimStart s = s -> trimStart (rev s) = rev s -> trim s = s.
Proof.
  intros H1 H2. unfold trim, trimEnd. rewrite H1, H2. apply rev_involutive.
Qed.

Lemma trim_idem (s : jsstring) : trim (trim s) = trim s.
Proof.
  apply trim_fixed.
  - unfold trim. destruct (trimStart s) as [|c r] eqn:Hs; [reflexivity|].
    pose proof (trimStart_head s c r Hs) as Hc.
    destruct (trimEnd_cons c r Hc) as [r' ->]. simpl. now rewrite Hc.
  - unfold trim, trimEnd. rewrite rev_involutive. apply trimStart_idem.
Qed.

(** ** Time texts *)

Lemma parseTime_spec (raw : jsstring) : parseTime raw = spec_timeText (trim raw).
Proof. unfold parseTime. apply timeRegex_refines_spec. Qed.

Lemma isDigit_bounds (c : N) : isDigit c = true -> 48 <= c <= 57.
Proof.
  unfold isDigit. intro H. apply andb_true_iff in H as [H1 H2].
  apply N.leb_le in H1, H2. lia.
Qed.

Lemma isDigit_not_blank (c : N) : isDigit c = true -> isWhiteSpace c = false.
Proof.
  intro H. apply isDigit_bounds in H. unfold isWhiteSpace.
  repeat match goal with
         | |- context [N.leb ?a ?b] =>
             first [ rewrite (proj2 (N.leb_le a b)) by lia
                   | rewrite (proj2 (N.leb_gt a b)) by lia ]
         | |- context [N.eqb ?a ?b] => rewrite (proj2 (N.eqb_neq a b)) by lia
         end.
  reflexivity.
Qed.

(** The two shapes [spec_timeText] accepts, with what they denote. *)
Lemma spec_timeText_inv (s : jsstring) (t : ParsedTime.t) :
  spec_timeText s = Some t ->
  exists h1 h2 m1 m2,
    isDigit h1 = true /\ isDigit h2 = true /\ isDigit m1 = true /\ isDigit m2 = true
    /\ (s = [h2; 58; m1; m2] /\ h1 = 48 \/ s = [h1; h2; 58; m1; m2])
    /\ ParsedTime.hour t = (10 * digitVal h1 + digitVal h2)%Z
    /\ ParsedTime.minute t = (10 * digitVal m1 + digitVal m2)%Z
    /\ (ParsedTime.hour t <= 23)%Z /\ (ParsedTime.minute t <= 59)%Z.
Proof.
  destruct s as [|a [|b [|c [|d [|e [|f r]]]]]]; unfold spec_timeText;
    try discriminate;
    match goal with
    | |- (if ?c then _ else _) = _ -> _ => destruct c eqn:H; [|discriminate]
    end;
    intro Ht; injection Ht as <-.
  - apply andb_true_iff in H as [H Hmin]. apply andb_true_iff in H as [H Hd].
    apply andb_true_iff in H as [H Hc]. apply andb_true_iff in H as [Ha Hb].
    apply N.eqb_eq in Hb. subst b. apply Z.leb_le in Hmin.
    exists 48, a, c, d. cbn [ParsedTime.hour ParsedTime.minute].
    pose proof (isDigit_bounds a Ha). unfold digitVal in *.
    repeat split; auto; lia.
  - apply andb_true_iff in H as [H Hmin]. apply andb_true_iff in H as [H Hhour].
    apply andb_true_iff in H as [H He]. apply andb_true_iff in H as [H Hd].
    apply andb_true_iff in H as [H Hc]. apply andb_true_iff in H as [Ha Hb].
    apply N.eqb_eq in Hc. subst c. apply Z.leb_le in Hmin, Hhour.
    exists a, b, d, e. cbn [ParsedTime.hour ParsedTime.minute]. repeat split; auto.
Qed.

Lemma digitVal_bounds (c : N) : isDigit c = true -> (0 <= digitVal c <= 9)%Z.
Proof. intro H. apply isDigit_bounds in H. unfold digitVal. lia. Qed.

Lemma two_digits (a b : Z) :
  (0 <= b <= 9)%Z -> ((10 * a + b) / 10 = a /\ (10 * a + b) mod 10 = b)%Z.
Proof.
  intro Hb. split.
  - symmetry. apply (Z.div_unique (10 * a + b) 10 a b); lia.
  - symmetry. apply (Z.mod_unique (10 * a + b) 10 a b); lia.
Qed.

Lemma clockText_digits (h1 h2 m1 m2 : N) :
  isDigit h1 = true -> isDigit h2 = true -> isDigit m1 = true -> isDigit m2 = true ->
  clockText (10 * digitVal h1 + digitVal h2) (10 * digitVal m1 + digitVal m2)
  = [h1; h2; 58; m1; m2].
Proof.
  intros H1 H2 H3 H4. unfold clockText.
  destruct (two_digits (digitVal h1) (digitVal h2) (digitVal_bounds h2 H2)) as [-> ->].
  destruct (two_digits (digitVal m1) (digitVal m2) (digitVal_bounds m2 H4)) as [-> ->].
  apply isDigit_bounds in H1, H2, H3, H4. unfold digitVal.
  repeat f_equal; lia.
Qed.

Lemma roundtrip_check_range (h m : Z) :
  (0 <= h <= 23)%Z -> (0 <= m <= 59)%Z -> roundtrip_check h m = true.
Proof.
  intros Hh Hm.
  apply (forallb_below (roundtrip_check h) 60); [|lia].
  apply (forallb_below
           (fun h => forallb (roundtrip_check h) (map Z.of_nat (seq 0 60))) 24);
    [exact roundtrip_check_all | lia].
Qed.

(** X1. Whenever [parseTime] succeeds, on any text, the hour lies in
    0..23 and the minute in 0..59. *)
Theorem parseTime_in_range (raw : jsstring) (t : ParsedTime.t) :
  parseTime raw = Some t ->
  (0 <= ParsedTime.hour t <= 23)%Z /\ (0 <= ParsedTime.minute t <= 59)%Z.
Proof.
  rewrite parseTime_spec. intro H.
  apply spec_timeText_inv in H
    as (h1 & h2 & m1 & m2 & D1 & D2 & D3 & D4 & _ & Hh & Hm & Hh' & Hm').
  apply digitVal_bounds in D1, D2, D3, D4. lia.
Qed.

Lemma parseTime_in_range_witness :
  parseTime (js " 7:05") = Some (ParsedTime.mk 7 5)
  /\ (0 <= 7 <= 23)%Z /\ (0 <= 5 <= 59)%Z.
Proof.
  split; [vm_compute; reflexivity|].
  exact (parseTime_in_range (js " 7:05") (ParsedTime.mk 7 5) eq_refl).
Defined.

(** X2. Formatting a parsed time gives the canonical text: the trimmed
    input itself when it has two hour digits, the trimmed input with a
    zero in front when it has one; parsing that text gives the same time
    again. *)
Theorem formatTime_normalises_parsed_text (raw : jsstring) (t : ParsedTime.t) :
  parseTime raw = Some t ->
  formatTime (ParsedTime.hour t) (ParsedTime.minute t)
  = (if Nat.eqb (length (trim raw)) 5 then trim raw else 48 :: trim raw)
  /\ parseTime (formatTime (ParsedTime.hour t) (ParsedTime.minute t)) = Some t.
Proof.
  rewrite parseTime_spec. intro H.
  apply spec_timeText_inv in H
    as (h1 & h2 & m1 & m2 & D1 & D2 & D3 & D4 & Hs & Hh & Hm & Hh' & Hm').
  pose proof (digitVal_bounds _ D1). pose proof (digitVal_bounds _ D2).
  pose proof (digitVal_bounds _ D3). pose proof (digitVal_bounds _ D4).
  assert (Hc : roundtrip_check (ParsedTime.hour t) (ParsedTime.minute t) = true)
    by (apply roundtrip_check_range; lia).
  unfold roundtrip_check in Hc. apply andb_true_iff in Hc as [Hf Hp].
  apply jsstring_eqb_eq in Hf. split.
  - rewrite Hf, Hh, Hm, clockText_digits by assumption.
    destruct Hs as [[-> ->] | ->]; reflexivity.
  - destruct (parseTime (formatTime _ _)) as [[h' m']|]; [|discriminate].
    simpl in Hp. apply andb_true_iff in Hp as [E1 E2].
    apply Z.eqb_eq in E1, E2. destruct t as [h m]. simpl in *. now subst.
Qed.

Lemma formatTime_normalises_parsed_text_witness :
  formatTime 7 5 = js "07:05" /\ parseTime (formatTime 7 5) = Some (ParsedTime.mk 7 5).
Proof.
  exact (formatTime_normalises_parsed_text (js " 7:05 ") (ParsedTime.mk 7 5) eq_refl).
Defined.

(** X3. White space before and after a text does not change what
    [parseTime] returns for it, success or failure. *)
Theorem parseTime_ignores_surrounding_blanks (ws1 s ws2 : jsstring) :
  allWhiteSpace ws1 = true -> allWhiteSpace ws2 = true ->
  parseTime (ws1 ++ s ++ ws2) = parseTime s.
Proof.
  intros H1 H2. unfold parseTime. now rewrite trim_pad.
Qed.

Lemma parseTime_ignores_surrounding_blanks_witness :
  parseTime (js "  " ++ js "18:30" ++ [9; 10]) = parseTime (js "18:30").
Proof.
  apply parseTime_ignores_surrounding_blanks; reflexivity.
Defined.

Lemma trim_digit_ends (c : N) (mid : jsstring) (d : N) :
  isDigit c = true -> isDigit d = true -> trim (c :: mid ++ [d]) = c :: mid ++ [d].
Proof.
  intros Hc Hd. apply trim_fixed.
  - simpl. now rewrite (isDigit_not_blank c Hc).
  - simpl. rewrite rev_app_distr. simpl. now rewrite (isDigit_not_blank d Hd).
Qed.

(** X4. A zero in front of a one-digit hour does not change the result
    of [parseTime]: [0H:MM] and [H:MM] parse alike. *)
Theorem parseTime_leading_zero_optional (h m1 m2 : N) :
  isDigit h = true -> isDigit m2 = true ->
  parseTime [48; h; 58; m1; m2] = parseTime [h; 58; m1; m2].
Proof.
  intros Hh Hm2. rewrite !parseTime_spec.
  pose proof (trim_digit_ends 48 [h; 58; m1] m2 eq_refl Hm2) as E1.
  pose proof (trim_digit_ends h [58; m1] m2 Hh Hm2) as E2.
  cbn [app] in E1, E2. rewrite E1, E2.
  pose proof (digitVal_bounds h Hh) as Hb.
  simpl. rewrite Hh. change (48 <=? 48) with true. simpl.
  destruct (isDigit m1); simpl; [|reflexivity].
  rewrite Hm2; simpl.
  change (digitVal 48) with 0%Z.
  replace (10 * 0 + digitVal h)%Z with (digitVal h) by lia.
  replace (digitVal h <=? 23)%Z with true by (symmetry; apply Z.leb_le; lia).
  reflexivity.
Qed.

Lemma parseTime_leading_zero_optional_witness :
  parseTime (js "07:05") = parseTime (js "7:05").
Proof. apply (parseTime_leading_zero_optional 55 48 53); reflexivity. Defined.

(** ** Cancelling a meal *)

Lemma filter_keeps_all {A} (f : A -> bool) (l : list A) :
  (forall x, In x l -> f x = true) -> filter f l = l.
Proof.
  induction l as [|x l IH]; simpl; [reflexivity|].
  intro H. rewrite (H x (or_introl eq_refl)). f_equal. apply IH. auto.
Qed.

Lemma find_after_filter {A} (f : A -> bool) (l : list A) :
  find f (filter (fun x => negb (f x)) l) = None.
Proof.
  apply find_absent. intros x Hx. apply filter_In in Hx as [_ Hx].
  now apply negb_true_iff in Hx.
Qed.

Lemma cancelMealAlarm_finish_meals c mealId (v : World) :
  meals (cancelMealAlarm_finish c mealId v)
  = filter (fun meal => negb (jsstring_eqb (MealEntry.id meal) mealId)) (meals v).
Proof.
  unfold cancelMealAlarm_finish, setActiveAlarm, setMeals.
  destruct c as [a|]; [destruct (jsstring_eqb a mealId)|];
    destruct v as [sc ms mn dt [aa|] asn ref mc ac vc sch st iv nt tr]; reflexivity.
Qed.

Lemma cancelMealAlarm_finish_scheduled c mealId (v : World) :
  scheduled (cancelMealAlarm_finish c mealId v) = scheduled v.
Proof.
  unfold cancelMealAlarm_finish, setActiveAlarm, setMeals.
  destruct c as [a|]; [destruct (jsstring_eqb a mealId)|];
    destruct v as [sc ms mn dt [aa|] asn ref mc ac vc sch st iv nt tr]; reflexivity.
Qed.

Lemma cancelMealAlarm_finish_trace c mealId (v : World) :
  trace (cancelMealAlarm_finish c mealId v) = trace v.
Proof.
  unfold cancelMealAlarm_finish, setActiveAlarm, setMeals.
  destruct c as [a|]; [destruct (jsstring_eqb a mealId)|];
    destruct v as [sc ms mn dt [aa|] asn ref mc ac vc sch st iv nt tr]; reflexivity.
Qed.

Lemma cancelMealAlarm_listed mealId (w : World) target :
  find (fun meal => jsstring_eqb (MealEntry.id meal) mealId) (meals w) = Some target ->
  meals (cancelMealAlarm mealId w)
  = filter (fun meal => negb (jsstring_eqb (MealEntry.id meal) mealId)) (meals w)
  /\ scheduled (cancelMealAlarm mealId w)
     = filter (fun t => negb (jsstring_eqb (fst t) (MealEntry.notificationId target)))
              (scheduled w)
  /\ trace (cancelMealAlarm mealId w)
     = CancelScheduledNotification (MealEntry.notificationId target) :: trace w.
Proof.
  intro H. unfold cancelMealAlarm. rewrite H.
  rewrite cancelMealAlarm_finish_meals, cancelMealAlarm_finish_scheduled,
    cancelMealAlarm_finish_trace.
  repeat split; reflexivity.
Qed.

(** X5. [cancelMealAlarm] for an id that no meal in the list has changes
    nothing at all: the list, the session, the triggers and the trace stay
    as they are, and the notification service is not called. *)
Theorem cancelMealAlarm_unknown_id_is_noop (mealId : jsstring) (w : World) :
  (forall meal, In meal (meals w) -> MealEntry.id meal <> mealId) ->
  cancelMealAlarm mealId w = w /\ cancelMealAlarm_request mealId w = w.
Proof.
  intro H.
  assert (Hf : find (fun meal => jsstring_eqb (MealEntry.id meal) mealId) (meals w) = None).
  { apply find_absent. intros x Hx. apply jsstring_eqb_neq. auto. }
  unfold cancelMealAlarm, cancelMealAlarm_request. rewrite Hf. split; reflexivity.
Qed.

Lemma cancelMealAlarm_unknown_id_is_noop_witness :
  cancelMealAlarm (js "no-such-id") ringingListed = ringingListed.
Proof.
  assert (H : forall meal, In meal (meals ringingListed) ->
                           MealEntry.id meal <> js "no-such-id").
  { assert (E : meals ringingListed
                = [MealEntry.mk (js "1700000000000-k3x9qa") (js "Tuna Casserole")
                     18 30 (js "trigger-1") 1700000000007])
      by (vm_compute; reflexivity).
    rewrite E. intros meal [<-|[]]. vm_compute. discriminate. }
  exact (proj1 (cancelMealAlarm_unknown_id_is_noop (js "no-such-id") ringingListed H)).
Defined.

(** X6. [cancelMealAlarm] for an id in the list, in its two halves.  At
    the press it calls the service once, to cancel the trigger of the
    first meal with that id, and changes nothing else.  When the service
    answers, in whatever state the app is then, it keeps exactly the
    meals with another id, in their order, and ends the session active at
    that moment exactly if the session active at the press was for that
    id: after a notification in between it ends another meal's session,
    or leaves the session of the cancelled meal.  With nothing in between
    the two halves are the atomic [cancelMealAlarm]. *)
Theorem cancelMealAlarm_removes_listed_meal
    (mealId : jsstring) (w v : World) (target : MealEntry.t) :
  find (fun meal => jsstring_eqb (MealEntry.id meal) mealId) (meals w) = Some target ->
  let asked := cancelMealAlarm_request mealId w in
  let captured := option_map ActiveAlarm.mealId (activeAlarm w) in
  let v' := cancelMealAlarm_finish captured mealId v in
  (handle (PressCancelItem mealId) w = asked
   /\ asked = cancelScheduledNotificationAsync (MealEntry.notificationId target) w
   /\ meals asked = meals w
   /\ activeAlarm asked = activeAlarm w
   /\ scheduled asked
      = filter (fun t => negb (jsstring_eqb (fst t) (MealEntry.notificationId target)))
               (scheduled w)
   /\ trace asked = CancelScheduledNotification (MealEntry.notificationId target) :: trace w)
  /\ (handle (CancelMealResolved captured mealId) v = v'
      /\ meals v'
         = filter (fun meal => negb (jsstring_eqb (MealEntry.id meal) mealId)) (meals v)
      /\ (forall meal,
             In meal (meals v') <-> In meal (meals v) /\ MealEntry.id meal <> mealId)
      /\ scheduled v' = scheduled v
      /\ trace v' = trace v
      /\ activeAlarm v'
         = match activeAlarm w with
           | Some a =>
               if jsstring_eqb (ActiveAlarm.mealId a) mealId then None else activeAlarm v
           | None => activeAlarm v
           end)
  /\ cancelMealAlarm mealId w = cancelMealAlarm_finish captured mealId asked.
Proof.
  intros H asked captured v'.
  assert (Hasked : asked
                   = cancelScheduledNotificationAsync (MealEntry.notificationId target) w).
  { unfold asked, cancelMealAlarm_request. rewrite H. reflexivity. }
  split; [|split].
  - split; [reflexivity|]. split; [exact Hasked|].
    rewrite Hasked. repeat split; reflexivity.
  - split; [reflexivity|]. split; [apply cancelMealAlarm_finish_meals|].
    split.
    { intro meal. unfold v'. rewrite cancelMealAlarm_finish_meals, filter_In,
        negb_true_iff, jsstring_eqb_neq. reflexivity. }
    split; [apply cancelMealAlarm_finish_scheduled|].
    split; [apply cancelMealAlarm_finish_trace|].
    unfold v', captured, cancelMealAlarm_finish, setActiveAlarm, setMeals.
    destruct (activeAlarm w) as [a|]; cbn [option_map];
      [destruct (jsstring_eqb (ActiveAlarm.mealId a) mealId)|];
      destruct v as [sc ms mn dt [b|] asn ref mc ac vc sch st iv nt tr]; reflexivity.
  - unfold cancelMealAlarm. rewrite H, Hasked. reflexivity.
Qed.

Lemma cancelMealAlarm_removes_listed_meal_witness :
  let asked := cancelMealAlarm_request (js "1700000000000-k3x9qa") ringingListed in
  let v := step (NotificationReceived (notificationOf soupPayload)) asked in
  let v' := cancelMealAlarm_finish (Some (js "1700000000000-k3x9qa"))
              (js "1700000000000-k3x9qa") v in
  activeAlarm v = Some (ActiveAlarm.mk (js "1700000000500-zz81ab") (js "Soup"))
  /\ activeAlarm v' = None
  /\ meals v' = [].
Proof.
  intros asked v v'.
  assert (Hfind : find (fun meal => jsstring_eqb (MealEntry.id meal)
                                      (js "1700000000000-k3x9qa"))
                       (meals ringingListed) = Some tunaEntry)
    by (vm_compute; reflexivity).
  assert (Hcap : option_map ActiveAlarm.mealId (activeAlarm ringingListed)
                 = Some (js "1700000000000-k3x9qa")) by (vm_compute; reflexivity).
  destruct (cancelMealAlarm_removes_listed_meal (js "1700000000000-k3x9qa")
              ringingListed v tunaEntry Hfind) as (_ & (_ & Hm & _ & _ & _ & Ha) & _).
  rewrite Hcap in Hm, Ha. fold v' in Hm, Ha.
  split; [vm_compute; reflexivity|]. split.
  - rewrite Ha. vm_compute. reflexivity.
  - rewrite Hm. vm_compute. reflexivity.
Defined.

(** X7. Cancelling the same id a second time changes nothing more. *)
Theorem cancelMealAlarm_twice (mealId : jsstring) (w : World) :
  cancelMealAlarm mealId (cancelMealAlarm mealId w) = cancelMealAlarm mealId w.
Proof.
  destruct (find (fun meal => jsstring_eqb (MealEntry.id meal) mealId) (meals w))
    as [target|] eqn:H.
  - destruct (cancelMealAlarm_listed mealId w target H) as (Hm & _).
    unfold cancelMealAlarm at 1. rewrite Hm.
    rewrite (find_after_filter (fun meal => jsstring_eqb (MealEntry.id meal) mealId)).
    reflexivity.
  - unfold cancelMealAlarm. rewrite H. rewrite H. reflexivity.
Qed.

(** ** Adding a meal, and cancelling it again *)

(** What a successful [addMeal] amounts to. *)
Lemma addMeal_valid (now : Z) (random nid : jsstring) (now' : Z) (w : World)
    (parsedTime : ParsedTime.t) :
  trim (mealName w) <> [] ->
  parseTime (dailyTime w) = Some parsedTime ->
  addMeal_start (mealName w) (dailyTime w) now random
  = AddScheduling (generatedId now random) (trim (mealName w)) parsedTime
      (ScheduleInput.mk
         (js "Food Waste Preventer")
         (js "Use your " ++ trim (mealName w) ++ js " today.")
         (js "default")
         (NotificationData.mk (Some (generatedId now random)) (Some (trim (mealName w))))
         (ParsedTime.hour parsedTime)
         (ParsedTime.minute parsedTime)
         (js "food-reminders")).
Proof.
  intros Hname Htime. unfold addMeal_start. rewrite Htime.
  destruct (trim (mealName w)) as [|c r]; [contradiction|]. reflexivity.
Qed.

Lemma addMeal_valid_lists (now : Z) (random nid : jsstring) (now' : Z) (w : World)
    (parsedTime : ParsedTime.t) :
  trim (mealName w) <> [] ->
  parseTime (dailyTime w) = Some parsedTime ->
  meals (addMeal now random nid now' w)
  = MealEntry.mk (generatedId now random) (trim (mealName w))
      (ParsedTime.hour parsedTime) (ParsedTime.minute parsedTime) nid now' :: meals w
  /\ map fst (scheduled (addMeal now random nid now' w)) = nid :: map fst (scheduled w)
  /\ activeAlarm (addMeal now random nid now' w) = activeAlarm w.
Proof.
  intros Hname Htime. unfold addMeal.
  rewrite (addMeal_valid now random nid now' w parsedTime Hname Htime).
  repeat split; reflexivity.
Qed.

Lemma addMeal_invalid (now : Z) (random nid : jsstring) (now' : Z) (w : World) :
  trim (mealName w) = [] \/ parseTime (dailyTime w) = None ->
  meals (addMeal now random nid now' w) = meals w
  /\ scheduled (addMeal now random nid now' w) = scheduled w.
Proof.
  intro H. unfold addMeal, addMeal_start.
  destruct H as [H|H]; rewrite H.
  - split; reflexivity.
  - destruct (negb (truthyString (trim (mealName w)))); split; reflexivity.
Qed.

(** X8. After a successful [addMeal], cancelling the generated id gives
    back the meal list and the registered triggers as they were before,
    provided neither the id nor the handle was in use. *)
Theorem cancel_undoes_add (now : Z) (random nid : jsstring) (now' : Z) (w : World)
    (parsedTime : ParsedTime.t) :
  trim (mealName w) <> [] ->
  parseTime (dailyTime w) = Some parsedTime ->
  (forall meal, In meal (meals w) -> MealEntry.id meal <> generatedId now random) ->
  (forall t, In t (scheduled w) -> fst t <> nid) ->
  let w' := cancelMealAlarm (generatedId now random) (addMeal now random nid now' w) in
  meals w' = meals w /\ scheduled w' = scheduled w.
Proof.
  intros Hname Htime Hid Hnid w'. subst w'.
  set (w1 := addMeal now random nid now' w).
  set (entry := MealEntry.mk (generatedId now random) (trim (mealName w))
                  (ParsedTime.hour parsedTime) (ParsedTime.minute parsedTime) nid now').
  assert (Hm1 : meals w1 = entry :: meals w)
    by apply (addMeal_valid_lists now random nid now' w parsedTime Hname Htime).
  assert (Hs1 : exists input, scheduled w1 = (nid, input) :: scheduled w).
  { subst w1. unfold addMeal.
    rewrite (addMeal_valid now random nid now' w parsedTime Hname Htime).
    eexists. reflexivity. }
  destruct Hs1 as [input Hs1].
  assert (Hfind : find (fun meal => jsstring_eqb (MealEntry.id meal) (generatedId now random))
                       (meals w1) = Some entry).
  { rewrite Hm1. simpl. now rewrite jsstring_eqb_refl. }
  destruct (cancelMealAlarm_listed _ w1 entry Hfind) as (Hm & Hs & _).
  rewrite Hm, Hs, Hm1, Hs1. simpl.
  rewrite !jsstring_eqb_refl. simpl. split.
  - apply filter_keeps_all. intros x Hx. apply negb_true_iff, jsstring_eqb_neq. auto.
  - apply filter_keeps_all. intros x Hx. apply negb_true_iff, jsstring_eqb_neq. auto.
Qed.

Lemma cancel_undoes_add_witness :
  let w' := cancelMealAlarm (generatedId 1700000000000 (js "k3x9qa"))
              (addMeal 1700000000000 (js "k3x9qa") (js "trigger-1") 1700000000007 tunaForm) in
  meals w' = meals tunaForm /\ scheduled w' = scheduled tunaForm.
Proof.
  apply (cancel_undoes_add 1700000000000 (js "k3x9qa") (js "trigger-1") 1700000000007
           tunaForm (ParsedTime.mk 18 30)).
  - vm_compute. discriminate.
  - vm_compute. reflexivity.
  - assert (E : meals tunaForm = []) by (vm_compute; reflexivity).
    rewrite E. intros meal [].
  - assert (E : scheduled tunaForm = []) by (vm_compute; reflexivity).
    rewrite E. intros t [].
Defined.

(** Dropping entries cannot make keys repeat. *)
Lemma distinct_keys_after_filter {A} (key : A -> jsstring) (keep : A -> bool)
    (xs : list A) :
  NoDup (map key xs) -> NoDup (map key (filter keep xs)).
Proof.
  intro H. induction xs as [|x xs IH]; cbn in *; [constructor|].
  apply NoDup_cons_iff in H as [Hx Hxs].
  destruct (keep x); cbn; [|now apply IH].
  apply NoDup_cons_iff. split; [|now apply IH].
  contradict Hx. apply in_map_iff in Hx as (y & Ey & Hy).
  apply in_map_iff. exists y. split; [exact Ey|].
  apply filter_In in Hy. tauto.
Qed.

Lemma cancel_keeps_lists_aligned
    (ms : list MealEntry.t) (ss : list (jsstring * ScheduleInput.t))
    (mealId : jsstring) (target : MealEntry.t) :
  map MealEntry.notificationId ms = map fst ss ->
  NoDup (map MealEntry.id ms) -> NoDup (map fst ss) ->
  find (fun meal => jsstring_eqb (MealEntry.id meal) mealId) ms = Some target ->
  map MealEntry.notificationId
      (filter (fun meal => negb (jsstring_eqb (MealEntry.id meal) mealId)) ms)
  = map fst (filter (fun t => negb (jsstring_eqb (fst t) (MealEntry.notificationId target)))
                    ss).
Proof.
  clear toLowerCase.
  revert ss. induction ms as [|m ms IH]; intros [|s ss]; simpl; try discriminate.
  intros Hmap Hids Hhandles. injection Hmap as Hhead Htail.
  inversion Hids as [|? ? Hm_notin Hids']; subst.
  inversion Hhandles as [|? ? Hs_notin Hhandles']; subst.
  destruct (jsstring_eqb (MealEntry.id m) mealId) eqn:Hm.
  - intro Ht. injection Ht as <-. apply jsstring_eqb_eq in Hm. subst mealId.
    rewrite Hhead, jsstring_eqb_refl. simpl.
    rewrite (filter_keeps_all _ ms), (filter_keeps_all _ ss); [exact Htail| |].
    + intros t Ht. apply negb_true_iff, jsstring_eqb_neq. intro E.
      apply Hs_notin. rewrite <- E. now apply in_map.
    + intros x Hx. apply negb_true_iff, jsstring_eqb_neq. intro E.
      apply Hm_notin. rewrite <- E. now apply in_map.
  - intro Ht. simpl.
    assert (Hne : jsstring_eqb (fst s) (MealEntry.notificationId target) = false).
    { apply jsstring_eqb_neq. intro E. apply Hs_notin. rewrite E, <- Htail.
      apply in_map. apply find_some in Ht. tauto. }
    rewrite Hne. simpl. f_equal; [exact Hhead|]. now apply IH.
Qed.

(** X9. When list and notification service agree (handles match entry
    by entry, no id and no handle twice), they still agree after
    [cancelMealAlarm] of any id and after [addMeal] with an unused id and
    handle, whether the input is accepted or rejected. *)
Theorem meals_and_triggers_stay_aligned (w : World) :
  inSync w ->
  (forall mealId, inSync (cancelMealAlarm mealId w))
  /\ (forall now random nid now',
         ~ In (generatedId now random) (map MealEntry.id (meals w)) ->
         ~ In nid (map fst (scheduled w)) ->
         inSync (addMeal now random nid now' w)).
Proof.
  intros (Hal & Hids & Hhs). split.
  - intro mealId.
    destruct (find (fun meal => jsstring_eqb (MealEntry.id meal) mealId) (meals w))
      as [target|] eqn:Hf.
    + destruct (cancelMealAlarm_listed mealId w target Hf) as (Hm & Hs & _).
      unfold inSync. rewrite Hm, Hs. split; [|split].
      * now apply cancel_keeps_lists_aligned.
      * now apply distinct_keys_after_filter.
      * now apply distinct_keys_after_filter.
    + unfold cancelMealAlarm. rewrite Hf. repeat split; assumption.
  - intros now random nid now' Hid Hnid.
    destruct (trim (mealName w)) as [|c r] eqn:Hn.
    { destruct (addMeal_invalid now random nid now' w (or_introl Hn)) as [Hm Hs].
      unfold inSync. rewrite Hm, Hs. repeat split; assumption. }
    destruct (parseTime (dailyTime w)) as [pt|] eqn:Hp.
    2:{ destruct (addMeal_invalid now random nid now' w (or_intror Hp)) as [Hm Hs].
        unfold inSync. rewrite Hm, Hs. repeat split; assumption. }
    assert (Hne : trim (mealName w) <> []) by (rewrite Hn; discriminate).
    assert (Hs : exists input,
               scheduled (addMeal now random nid now' w) = (nid, input) :: scheduled w).
    { unfold addMeal. rewrite (addMeal_valid now random nid now' w pt Hne Hp).
      eexists. reflexivity. }
    destruct Hs as [input Hs].
    destruct (addMeal_valid_lists now random nid now' w pt Hne Hp) as (Hm & _).
    unfold inSync. rewrite Hm, Hs. simpl. split; [|split].
    + now f_equal.
    + now constructor.
    + now constructor.
Qed.

Lemma meals_and_triggers_stay_aligned_witness :
  inSync (addMeal 1700000000000 (js "k3x9qa") (js "trigger-1") 1700000000007 tunaForm).
Proof.
  assert (H0 : inSync tunaForm).
  { unfold inSync. vm_compute. repeat split; constructor. }
  apply (proj2 (meals_and_triggers_stay_aligned tunaForm H0)).
  - vm_compute. tauto.
  - vm_compute. tauto.
Defined.

(** X10. The entry a successful [addMeal] puts in the list has a
    non-empty name without white space at either end, an hour in 0..23
    and a minute in 0..59, and the time text shown for it parses back to
    the time that was entered. *)
Theorem addMeal_stores_wellformed_entry
    (now : Z) (random nid : jsstring) (now' : Z) (w : World) (parsedTime : ParsedTime.t) :
  trim (mealName w) <> [] ->
  parseTime (dailyTime w) = Some parsedTime ->
  exists entry,
    meals (addMeal now random nid now' w) = entry :: meals w
    /\ MealEntry.name entry <> []
    /\ trim (MealEntry.name entry) = MealEntry.name entry
    /\ (0 <= MealEntry.hour entry <= 23)%Z
    /\ (0 <= MealEntry.minute entry <= 59)%Z
    /\ parseTime (formatTime (MealEntry.hour entry) (MealEntry.minute entry))
       = Some parsedTime.
Proof.
  intros Hname Htime.
  destruct (addMeal_valid_lists now random nid now' w parsedTime Hname Htime) as (Hm & _).
  eexists. split; [exact Hm|]. cbn [MealEntry.name MealEntry.hour MealEntry.minute].
  split; [exact Hname|]. split; [apply trim_idem|].
  pose proof Htime as Hspec. rewrite parseTime_spec in Hspec.
  apply spec_timeText_inv in Hspec
    as (h1 & h2 & m1 & m2 & D1 & D2 & D3 & D4 & _ & Hh & Hmin & Hh' & Hm').
  pose proof (digitVal_bounds _ D1). pose proof (digitVal_bounds _ D2).
  pose proof (digitVal_bounds _ D3). pose proof (digitVal_bounds _ D4).
  split; [lia|]. split; [lia|].
  assert (Hc : roundtrip_check (ParsedTime.hour parsedTime) (ParsedTime.minute parsedTime)
               = true) by (apply roundtrip_check_range; lia).
  unfold roundtrip_check in Hc. apply andb_true_iff in Hc as [_ Hp].
  destruct (parseTime (formatTime _ _)) as [[h' m']|]; [|discriminate].
  simpl in Hp. apply andb_true_iff in Hp as [E1 E2].
  apply Z.eqb_eq in E1, E2. destruct parsedTime as [h m]. simpl in *. now subst.
Qed.

Lemma addMeal_stores_wellformed_entry_witness :
  exists entry,
    meals (addMeal 1700000000000 (js "k3x9qa") (js "trigger-1") 1700000000007 tunaForm)
    = entry :: meals tunaForm
    /\ MealEntry.name entry <> []
    /\ trim (MealEntry.name entry) = MealEntry.name entry
    /\ (0 <= MealEntry.hour entry <= 23)%Z
    /\ (0 <= MealEntry.minute entry <= 59)%Z
    /\ parseTime (formatTime (MealEntry.hour entry) (MealEntry.minute entry))
       = Some (ParsedTime.mk 18 30).
Proof.
  apply (addMeal_stores_wellformed_entry
           1700000000000 (js "k3x9qa") (js "trigger-1") 1700000000007
           tunaForm (ParsedTime.mk 18 30)).
  - vm_compute. discriminate.
  - vm_compute. reflexivity.
Defined.

(** X11. The payload [addMeal] attaches to the trigger passes the check
    of the notification listener and of the cold-start check, in any
    state, and the session it starts carries the id and the name of the
    entry that was added. *)
Theorem scheduled_payload_starts_matching_session
    (now : Z) (random nid : jsstring) (now' : Z) (w v : World) (parsedTime : ParsedTime.t) :
  trim (mealName w) <> [] ->
  parseTime (dailyTime w) = Some parsedTime ->
  exists input entry,
    scheduled (addMeal now random nid now' w) = (nid, input) :: scheduled w
    /\ meals (addMeal now random nid now' w) = entry :: meals w
    /\ activeAlarm (onNotificationReceived (notificationOf (ScheduleInput.data input)) v)
       = Some (ActiveAlarm.mk (MealEntry.id entry) (MealEntry.name entry))
    /\ activeAlarm (setupColdStart (Some (responseOf (ScheduleInput.data input))) v)
       = Some (ActiveAlarm.mk (MealEntry.id entry) (MealEntry.name entry)).
Proof.
  intros Hname Htime. unfold addMeal.
  rewrite (addMeal_valid now random nid now' w parsedTime Hname Htime).
  eexists. eexists. split; [reflexivity|]. split; [reflexivity|].
  cbn [ScheduleInput.data MealEntry.id MealEntry.name].
  unfold onNotificationReceived, setupColdStart, responseOf, notificationOf;
    cbn [data content request notification NotificationData.mealId
         NotificationData.mealName truthy valueOf].
  assert (Hid : truthyString (generatedId now random) = true).
  { unfold generatedId. destruct (toString now); reflexivity. }
  assert (Hnm : truthyString (trim (mealName w)) = true).
  { destruct (trim (mealName w)); [contradiction|reflexivity]. }
  rewrite Hid, Hnm. cbn [negb orb andb].
  unfold setActiveAlarm, setScreen.
  destruct v as [sc ms mn dt [a|] asn ref mc ac vc sch st iv nt tr]; split; reflexivity.
Qed.

Lemma scheduled_payload_starts_matching_session_witness :
  exists input entry,
    scheduled (addMeal 1700000000000 (js "k3x9qa") (js "trigger-1") 1700000000007 tunaForm)
    = (js "trigger-1", input) :: scheduled tunaForm
    /\ meals (addMeal 1700000000000 (js "k3x9qa") (js "trigger-1") 1700000000007 tunaForm)
       = entry :: meals tunaForm
    /\ activeAlarm (onNotificationReceived (notificationOf (ScheduleInput.data input))
                      tunaForm)
       = Some (ActiveAlarm.mk (MealEntry.id entry) (MealEntry.name entry))
    /\ activeAlarm (setupColdStart (Some (responseOf (ScheduleInput.data input))) tunaForm)
       = Some (ActiveAlarm.mk (MealEntry.id entry) (MealEntry.name entry)).
Proof.
  apply (scheduled_payload_starts_matching_session
           1700000000000 (js "k3x9qa") (js "trigger-1") 1700000000007
           tunaForm tunaForm (ParsedTime.mk 18 30)).
  - vm_compute. discriminate.
  - vm_compute. reflexivity.
Defined.

(** X12. [addMeal] checks the name before the time: with an empty trimmed
    name the advisory is "Meal required" whatever the time text; with a
    name and an unparsable time it is "Time format". *)
Theorem addMeal_checks_name_before_time
    (now : Z) (random nid : jsstring) (now' : Z) (w : World) :
  (trim (mealName w) = [] ->
   addMeal now random nid now' w
   = Alert_alert (js "Meal required") (js "Enter a meal name like Tuna casserole.") w)
  /\ (trim (mealName w) <> [] -> parseTime (dailyTime w) = None ->
      addMeal now random nid now' w
      = Alert_alert (js "Time format") (js "Use 24h HH:MM format, for example 18:30.") w).
Proof.
  unfold addMeal, addMeal_start. split.
  - intros ->. reflexivity.
  - intros Hn ->. destruct (trim (mealName w)); [contradiction|reflexivity].
Qed.

Lemma addMeal_checks_name_before_time_witness :
  let w := with_dailyTime (js "25:00") (with_mealName (js "   ") (mount (initialWorld [] None))) in
  addMeal 1700000000000 (js "k3x9qa") (js "trigger-1") 1700000000007 w
  = Alert_alert (js "Meal required") (js "Enter a meal name like Tuna casserole.") w.
Proof.
  intro w.
  apply (proj1 (addMeal_checks_name_before_time
                  1700000000000 (js "k3x9qa") (js "trigger-1") 1700000000007 w)).
  vm_compute. reflexivity.
Defined.

(** ** Sessions and storage over the reachable states *)

Lemma ringingListed_reachable : reachable ringingListed.
Proof. apply run_reachable; [apply reachable_mount | vm_compute; reflexivity]. Qed.

(** Handlers never write to storage, and change the list only through
    [setMeals], which flags the persist effect. *)
Lemma handle_storage_frame (e : Event) (w : World) :
  storage (handle e w) = storage w
  /\ (mealsChanged (handle e w) = false -> meals (handle e w) = meals w).
Proof.
  destruct w as [sc ms mn dt aa asn ref mc ac vc sch st iv nt tr].
  destruct e; cbn [handle];
    unfold setupPermissions, setupLoad, setupColdStart, onNotificationReceived,
      onNotificationResponseReceived, addMeal_request, cancelMealAlarm_request,
      pressDismiss, addMeal_finish, cancelMealAlarm_finish, setActiveAlarm, setMeals,
      setScreen, setMealName, setDailyTime, setAlarmSentence, Alert_alert,
      AsyncStorage_getItem, scheduleNotificationAsync, cancelScheduledNotificationAsync;
    cbn -[truthy find filter addMeal_start jsstring_eqb js];
    repeat (break_match; cbn -[truthy find filter addMeal_start jsstring_eqb js]);
    split; intros; try reflexivity; try discriminate.
Qed.

Lemma runEffects_storage (w : World) :
  storage (runEffects w) = if mealsChanged w then Some (meals w) else storage w.
Proof. unfold runEffects. world_cases w; reflexivity. Qed.

(** X13. In every state the mounted component can reach, the stored
    list is the meal list in memory. *)
Theorem stored_list_mirrors_meals (w : World) :
  reachable w -> storage w = Some (meals w).
Proof.
  induction 1 as [triggers stored | w e Hreach IH He].
  - reflexivity.
  - unfold step. rewrite runEffects_storage, runEffects_meals.
    destruct (handle_storage_frame e w) as [Hst Hm].
    destruct (mealsChanged (handle e w)); [reflexivity|].
    rewrite Hst, Hm by reflexivity. exact IH.
Qed.

(** X14. "Dismiss For Now" ends the session, stops the timer and empties
    the confirmation text, and leaves the meal list, the registered
    triggers, the stored list and the screen as they are. *)
Theorem dismiss_keeps_meal_and_trigger (w : World) :
  reachable w ->
  alarmActionsShown w = true ->
  let w' := step PressDismiss w in
  activeAlarm w' = None
  /\ intervals w' = []
  /\ alarmSentence w' = []
  /\ meals w' = meals w
  /\ scheduled w' = scheduled w
  /\ storage w' = storage w
  /\ screen w' = screen w.
Proof.
  intros Hreach Hshown w'. subst w'.
  destruct (reachable_pulseInvariant w Hreach) as ((Hmc & Hac) & Ht & Hact).
  unfold alarmActionsShown, modalVisible in Hshown. unfold timersTidy in Ht.
  destruct w as [sc ms mn dt [a|] asn ref mc ac vc sch st iv nt tr]; cbn in *;
    [|discriminate].
  subst mc ac. destruct ref as [t|]; [|contradiction]. destruct Ht as [-> ->].
  unfold step, runEffects; cbn. rewrite Nat.eqb_refl. repeat split; reflexivity.
Qed.

(** X15. A notification with a full payload that arrives while a session
    is active replaces that session: the old timer is cleared and one new
    timer started, so one timer is live, and the confirmation text typed
    so far is kept. *)
Theorem second_alarm_replaces_first (w : World) (a : ActiveAlarm.t) (n : Notification)
    (i nm : jsstring) :
  reachable w ->
  activeAlarm w = Some a ->
  data (content (request n)) = NotificationData.mk (Some i) (Some nm) ->
  i <> [] -> nm <> [] ->
  let w' := step (NotificationReceived n) w in
  activeAlarm w' = Some (ActiveAlarm.mk i nm)
  /\ alarmSentence w' = alarmSentence w
  /\ intervals w' = [S (nextTimer w)]
  /\ vibrationIntervalRef w' = Some (S (nextTimer w))
  /\ exists t,
      intervals w = [t]
      /\ trace w' = SetInterval (S (nextTimer w)) 1500 :: Vibrate 1000
                    :: VibrationCancel :: ClearInterval t :: trace w.
Proof.
  intros Hreach Ha Hd Hi Hnm w'. subst w'.
  destruct (reachable_pulseInvariant w Hreach) as ((Hmc & Hac) & Ht & Hact).
  unfold timersTidy in Ht. rewrite Ha in Hact.
  unfold step, handle, onNotificationReceived. rewrite Hd.
  destruct i as [|i0 i]; [contradiction|]. destruct nm as [|n0 nm]; [contradiction|].
  cbn [NotificationData.mealId NotificationData.mealName truthy truthyString negb orb valueOf].
  destruct w as [sc ms mn dt aa asn ref mc ac vc sch st iv nt tr]; cbn in *.
  subst aa mc ac. destruct ref as [t|]; [|contradiction]. destruct Ht as [-> ->].
  unfold runEffects; cbn. rewrite Nat.eqb_refl.
  repeat split; try reflexivity. exists t. split; reflexivity.
Qed.

(** X16. The cold-start check starts the same session as the listener
    for tapped notifications and raises the modal, but leaves the screen
    as it is, while the listener switches to the tool screen. *)
Theorem cold_start_opens_alarm_without_navigation
    (d : NotificationData.t) (w : World) :
  truthy (NotificationData.mealId d) = true ->
  truthy (NotificationData.mealName d) = true ->
  let cold := step (SetupColdStart (Some (responseOf d))) w in
  let tapped := step (NotificationResponseReceived (responseOf d)) w in
  activeAlarm cold = activeAlarm tapped
  /\ modalVisible cold = true
  /\ screen cold = screen w
  /\ screen tapped = foodWastePreventer.
Proof.
  intros Hi Hn cold tapped. subst cold tapped. unfold step, modalVisible.
  rewrite !runEffects_activeAlarm, !runEffects_screen. cbn [handle].
  unfold setupColdStart, onNotificationResponseReceived, responseOf, notificationOf;
    cbn [data content request notification].
  rewrite Hi, Hn. cbn [negb orb andb]. unfold setActiveAlarm, setScreen.
  destruct w as [sc ms mn dt [a|] asn ref mc ac vc sch st iv nt tr]; cbn;
    repeat split; reflexivity.
Qed.

Lemma cold_start_opens_alarm_without_navigation_witness :
  let w := mount (initialWorld [] None) in
  let cold := step (SetupColdStart (Some (responseOf tunaPayload))) w in
  modalVisible cold = true /\ screen cold = tools.
Proof.
  intros w cold.
  destruct (cold_start_opens_alarm_without_navigation tunaPayload w)
    as (_ & H2 & H3 & _).
  - vm_compute. reflexivity.
  - vm_compute. reflexivity.
  - split; [exact H2 | exact H3].
Defined.

(** ** The displayed sentence *)

Lemma lowerAscii_idem (c : N) : lowerAscii (lowerAscii c) = lowerAscii c.
Proof.
  unfold lowerAscii.
  destruct ((65 <=? c) && (c <=? 90)) eqn:H; [|now rewrite H].
  apply andb_true_iff in H as [A B]. apply N.leb_le in A, B.
  replace (c + 32 <=? 90) with false by (symmetry; apply N.leb_gt; lia).
  now rewrite andb_false_r.
Qed.

Lemma lowerAscii_keeps_ascii (s : jsstring) :
  isAsciiText s = true -> isAsciiText (map lowerAscii s) = true.
Proof.
  unfold isAsciiText. induction s as [|c s IH]; simpl; [reflexivity|].
  intro H. apply andb_true_iff in H as [Hc Hs]. rewrite (IH Hs), andb_true_r.
  apply N.ltb_lt in Hc. apply N.ltb_lt. unfold lowerAscii.
  destruct ((65 <=? c) && (c <=? 90)) eqn:E; [|exact Hc].
  apply andb_true_iff in E as [_ B]. apply N.leb_le in B. lia.
Qed.

Lemma latin1_asciiLowerCasing : asciiLowerCasing latin1LowerCase.
Proof.
  intros s. unfold isAsciiText, latin1LowerCase.
  induction s as [|c s IH]; simpl; [reflexivity|].
  intro H. apply andb_true_iff in H as [Hc Hs]. rewrite (IH Hs). f_equal.
  apply N.ltb_lt in Hc. unfold lowerUnit, lowerAscii.
  destruct ((65 <=? c) && (c <=? 90)); [reflexivity|].
  replace (192 <=? c) with false by (symmetry; apply N.leb_gt; lia). reflexivity.
Qed.

(** With an ASCII meal name, trimming and lower-casing leave the
    required sentence as it is. *)
Lemma requiredSentence_fixed (a : ActiveAlarm.t) :
  asciiLowerCasing toLowerCase ->
  isAsciiText (ActiveAlarm.mealName a) = true ->
  toLowerCase (trim (requiredSentence (Some a))) = requiredSentence (Some a).
Proof.
  intros Hascii Hname.
  assert (Htrim : trim (requiredSentence (Some a)) = requiredSentence (Some a)).
  { apply trim_fixed.
    - reflexivity.
    - unfold requiredSentence. rewrite !rev_app_distr. reflexivity. }
  rewrite Htrim. unfold requiredSentence.
  rewrite (Hascii (ActiveAlarm.mealName a) Hname).
  rewrite Hascii.
  - rewrite !map_app, map_map.
    rewrite (map_ext _ _ lowerAscii_idem). reflexivity.
  - unfold isAsciiText. rewrite !forallb_app.
    fold (isAsciiText (map lowerAscii (ActiveAlarm.mealName a))).
    rewrite (lowerAscii_keeps_ascii _ Hname). reflexivity.
Qed.

(** X17. For a meal name of ASCII characters, lowercased as the built-in
    lowercases ASCII text, the sentence the modal displays unlocks the
    alarm when typed as displayed, also with white space before or after
    it. *)
Theorem displayed_sentence_unlocks (a : ActiveAlarm.t) (ws1 ws2 : jsstring) :
  asciiLowerCasing toLowerCase ->
  isAsciiText (ActiveAlarm.mealName a) = true ->
  allWhiteSpace ws1 = true -> allWhiteSpace ws2 = true ->
  canAcknowledge (ws1 ++ requiredSentence (Some a) ++ ws2) (requiredSentence (Some a))
  = true.
Proof.
  intros Hascii Hname H1 H2. unfold canAcknowledge. rewrite trim_pad by assumption.
  rewrite requiredSentence_fixed by assumption. apply jsstring_eqb_refl.
Qed.

End LowerCase.

(** * The statements on concrete states

    The statements above that depend on the lower-casing function, tried
    on concrete states with [latin1LowerCase] in its place. *)

Lemma alarm_actions_need_exact_sentence_witness :
  let w := with_alarmSentence (js " My name is Sarah and I will use the Tuna Casserole today")
             (with_activeAlarm (Some tunaCasserole) (initialWorld [] None)) in
  alarmActionsShown latin1LowerCase w = true
  /\ canAcknowledge latin1LowerCase
       (js "My Name Is Sarah And I Will Use The Tuna Casserole Today")
       (requiredSentence latin1LowerCase (Some tunaCasserole)) = true.
Proof.
  intro w.
  destruct (alarm_actions_need_exact_sentence latin1LowerCase) as [Hiff Hex].
  split.
  - apply (proj2 (Hiff w tunaCasserole eq_refl)). vm_compute. reflexivity.
  - exact (proj1 (proj2 (Hex latin1_asciiLowerCasing))).
Defined.

Lemma vibration_timer_follows_session_witness :
  let w := typingWhileRinging in
  let w' := step (NotificationReceived (notificationOf soupPayload)) w in
  (exists t, intervals w = [t] /\ vibrationIntervalRef w = Some t)
  /\ activeAlarm w' = Some (ActiveAlarm.mk (js "1700000000500-zz81ab") (js "Soup"))
  /\ timersStarted (trace w') = S (timersStarted (trace w))
  /\ alarmSentence w' = alarmSentence w
  /\ intervals (unmount w) = [].
Proof.
  intros w w'.
  assert (Hreach : reachable latin1LowerCase w).
  { apply run_reachable; [apply reachable_mount | vm_compute; reflexivity]. }
  assert (Hact : activeAlarm w <> None) by (vm_compute; discriminate).
  destruct (vibration_timer_follows_session latin1LowerCase w Hreach)
    as (Hrest & _ & Hpayload & Hun).
  destruct (Hpayload (NotificationReceived (notificationOf soupPayload))
              (notificationOf soupPayload)
              (js "1700000000500-zz81ab") (js "Soup")
              (or_introl eq_refl) Hact eq_refl)
    as (H1 & H2 & _ & H4).
  - vm_compute. discriminate.
  - vm_compute. discriminate.
  - assert (Ha : activeAlarm w = Some tunaCasserole) by (vm_compute; reflexivity).
    rewrite Ha in Hrest.
    split; [exact Hrest|]. split; [exact H1|]. split; [exact H2|].
    split; [exact H4 | exact Hun].
Defined.

Lemma cancel_this_alarm_dead_for_unlisted_meal_witness :
  meals ringingAfterRestart = []
  /\ scheduled ringingAfterRestart = [tunaTrigger]
  /\ alarmActionsShown latin1LowerCase ringingAfterRestart = true
  /\ step PressCancelThisAlarm ringingAfterRestart = ringingAfterRestart
  /\ activeAlarm (step PressCancelThisAlarm ringingAfterRestart) = Some tunaCasserole.
Proof.
  assert (Hreach : reachable latin1LowerCase ringingAfterRestart).
  { apply run_reachable; [apply reachable_mount | vm_compute; reflexivity]. }
  assert (Ha : activeAlarm ringingAfterRestart = Some tunaCasserole)
    by (vm_compute; reflexivity).
  assert (Hshown : alarmActionsShown latin1LowerCase ringingAfterRestart = true)
    by (vm_compute; reflexivity).
  assert (Hmeals : meals ringingAfterRestart = []) by (vm_compute; reflexivity).
  assert (Hunlisted : forall meal, In meal (meals ringingAfterRestart) ->
                        MealEntry.id meal <> ActiveAlarm.mealId tunaCasserole).
  { rewrite Hmeals. intros meal []. }
  destruct (cancel_this_alarm_dead_for_unlisted_meal latin1LowerCase
              ringingAfterRestart tunaCasserole Hreach Ha Hshown Hunlisted)
    as (_ & _ & Hstep & Hstays & _).
  split; [exact Hmeals|]. split; [vm_compute; reflexivity|].
  split; [exact Hshown|]. split; [exact Hstep | exact Hstays].
Defined.

Lemma stored_list_mirrors_meals_witness :
  storage ringingListed = Some (meals ringingListed).
Proof.
  exact (stored_list_mirrors_meals latin1LowerCase ringingListed
           (ringingListed_reachable latin1LowerCase)).
Defined.

Lemma dismiss_keeps_meal_and_trigger_witness :
  let w' := step PressDismiss ringingListed in
  activeAlarm w' = None /\ intervals w' = [] /\ meals w' = meals ringingListed.
Proof.
  intro w'.
  assert (Hshown : alarmActionsShown latin1LowerCase ringingListed = true)
    by (vm_compute; reflexivity).
  destruct (dismiss_keeps_meal_and_trigger latin1LowerCase ringingListed
              (ringingListed_reachable latin1LowerCase) Hshown)
    as (H1 & H2 & _ & H4 & _).
  split; [exact H1 | split; [exact H2 | exact H4]].
Defined.

Lemma second_alarm_replaces_first_witness :
  let n := notificationOf soupPayload in
  let w' := step (NotificationReceived n) ringingListed in
  activeAlarm w' = Some (ActiveAlarm.mk (js "1700000000500-zz81ab") (js "Soup"))
  /\ alarmSentence w' = alarmSentence ringingListed.
Proof.
  intros n w'.
  assert (Ha : activeAlarm ringingListed = Some tunaCasserole) by (vm_compute; reflexivity).
  destruct (second_alarm_replaces_first latin1LowerCase ringingListed tunaCasserole n
              (js "1700000000500-zz81ab") (js "Soup")
              (ringingListed_reachable latin1LowerCase) Ha eq_refl)
    as (H1 & H2 & _).
  - vm_compute. discriminate.
  - vm_compute. discriminate.
  - split; [exact H1 | exact H2].
Defined.

Lemma displayed_sentence_unlocks_witness :
  canAcknowledge latin1LowerCase
    (js "  " ++ requiredSentence latin1LowerCase (Some tunaCasserole) ++ js " ")
    (requiredSentence latin1LowerCase (Some tunaCasserole)) = true
  /\ requiredSentence latin1LowerCase (Some tunaCasserole)
     = js "my name is sarah and i will use the tuna casserole today".
Proof.
  split; [|vm_compute; reflexivity].
  apply (displayed_sentence_unlocks latin1LowerCase tunaCasserole (js "  ") (js " "));
    [exact latin1_asciiLowerCasing | vm_compute; reflexivity
     | vm_compute; reflexivity | vm_compute; reflexivity].
Defined.
